(** * WinXinCrawler: the crawl pipeline, embedded and verified

    A shallow embedding of the spider ([wechat_spider/spiders/wechat.py]), the
    item pipelines ([wechat_spider/pipelines.py]) and the crawl manager
    ([app.py]), followed by the properties the specification states about
    them.  Python [str] values are sequences of Unicode code points, items
    and JSON objects are finite maps from field names to dynamically typed
    values, and the two stores are explicit states threaded through the
    pipeline stages. *)

From Stdlib Require Import String Ascii NArith ZArith Lia.
From stdpp Require Import gmap strings list.

Close Scope string_scope.

(** ** Python strings and the builtins the crawler calls *)

Module Py.

(** A [str] is a sequence of code points. *)
Definition str := list N.

(** Source literals are written as UTF-8 text; [utf8_decode need acc bs]
    reads the code points off the bytes ([need] continuation bytes are still
    to come for the code point accumulated in [acc]). *)
Fixpoint utf8_decode (need : nat) (acc : N) (bs : list N) : str :=
  match bs with
  | [] => []
  | b :: bs' =>
    match need with
    | S n =>
      let acc' := (acc * 64 + b mod 64)%N in
      match n with
      | O => acc' :: utf8_decode 0 0%N bs'
      | S _ => utf8_decode n acc' bs'
      end
    | O =>
      if (b <? 128)%N then b :: utf8_decode 0 0%N bs'
      else if (b <? 224)%N then utf8_decode 1 (b mod 32)%N bs'
      else if (b <? 240)%N then utf8_decode 2 (b mod 16)%N bs'
      else utf8_decode 3 (b mod 8)%N bs'
    end
  end.

Definition lit (s : string) : str :=
  utf8_decode 0 0%N (map N_of_ascii (list_ascii_of_string s)).

Definition LF : N := 10%N.
Definition LT : N := 60%N.
Definition GT : N := 62%N.

(** [str.isspace] on one code point, which is also the class [\s] of a
    [str] pattern: the characters whose bidirectional type is WS, B or S or
    whose category is Zs. *)
Definition isspace (c : N) : bool :=
  ((9 <=? c) && (c <=? 13) || (28 <=? c) && (c <=? 32)
   || (c =? 133) || (c =? 160) || (c =? 5760)
   || (8192 <=? c) && (c <=? 8202)
   || (c =? 8232) || (c =? 8233) || (c =? 8239) || (c =? 8287)
   || (c =? 12288))%N.

(** [s.lstrip()], [s.rstrip()] and [s.strip()]. *)
Fixpoint lstrip (s : str) : str :=
  match s with
  | c :: s' => if isspace c then lstrip s' else s
  | [] => []
  end.

Definition rstrip (s : str) : str := rev (lstrip (rev s)).

Definition strip (s : str) : str := rstrip (lstrip s).

(** [s.startswith(p)] *)
Fixpoint startswith (p s : str) : bool :=
  match p, s with
  | [], _ => true
  | _ :: _, [] => false
  | a :: p', b :: s' => (a =? b)%N && startswith p' s'
  end.

(** [p in s] for two strings: [p] occurs as a substring of [s]. *)
Fixpoint contains (p s : str) : bool :=
  startswith p s ||
  match s with
  | [] => false
  | _ :: s' => contains p s'
  end.

(** [p] occurs in [s]: what [p in s] decides. *)
Definition occurs (p s : str) : Prop := exists a b, s = a ++ p ++ b.

(** The ASCII part of the lower-case mapping, used by the examples; the
    classifier takes [str.lower] itself as a parameter. *)
Definition ascii_lower (c : N) : N :=
  if ((65 <=? c) && (c <=? 90))%N then (c + 32)%N else c.

(** [s.split()]: the maximal runs of characters that are not whitespace.
    [word] is the run being read, in reverse. *)
Fixpoint split_loop (word : str) (s : str) : list str :=
  match s with
  | [] => match word with [] => [] | _ => [rev word] end
  | c :: s' =>
    if isspace c then
      match word with
      | [] => split_loop [] s'
      | _ => rev word :: split_loop [] s'
      end
    else split_loop (c :: word) s'
  end.

Definition split (s : str) : list str := split_loop [] s.

(** [sep.join(words)] *)
Fixpoint join (sep : str) (words : list str) : str :=
  match words with
  | [] => []
  | [w] => w
  | w :: ws => w ++ sep ++ join sep ws
  end.

(** The values an item field or a JSON member holds: [None], booleans,
    integers, strings, lists of strings and [datetime]s (seconds since the
    epoch). *)
Inductive value :=
| VNone
| VBool (b : bool)
| VInt (n : Z)
| VStr (s : str)
| VList (l : list str)
| VTime (t : Z).

#[global] Instance value_eq_dec : EqDecision value.
Proof. solve_decision. Defined.

(** A [dict] with string keys: a JSON object, a Scrapy item, a stored
    document. *)
Abbreviation dict := (gmap string value).

(** [bool(v)] *)
Definition truthy (v : value) : bool :=
  match v with
  | VNone => false
  | VBool b => b
  | VInt n => negb (n =? 0)%Z
  | VStr s => match s with [] => false | _ => true end
  | VList l => match l with [] => false | _ => true end
  | VTime _ => true
  end.

(** [d.get(k)], which is [None] for a missing key, and [d.get(k, dflt)]. *)
Definition get (d : dict) (k : string) : value := default VNone (d !! k).
Definition get_or (d : dict) (k : string) (dflt : value) : value :=
  default dflt (d !! k).

(** What [datetime.fromtimestamp] does with an integer: it gives a
    [datetime], raises [ValueError] (the year is out of range) or raises
    [OverflowError] or [OSError] (the platform cannot convert the value). *)
Inductive timestamp_result :=
| Datetime (t : Z)
| RaisesValueError
| RaisesOverflowError.

(** What the libraries compute that the repository does not define:
    [str.lower], [int] on a string ([None] for [ValueError]),
    [datetime.fromtimestamp], [datetime.isoformat], the text of a value in
    an f-string, the url [scrapy.Request] keeps for the text it is given
    (w3lib's [safe_url_string]; [None] for the [ValueError] of a text that
    does not parse as a URL: a port that is no number, a malformed IPv6
    literal) and [urllib.parse.urljoin]. *)
Class Builtins := {
  str_lower : str -> str;
  int_of_str : str -> option Z;
  fromtimestamp : Z -> timestamp_result;
  isoformat : Z -> str;
  to_str : value -> str;
  safe_url_string : str -> option str;
  urljoin : str -> str -> str
}.

(** [int(v)]; [None] stands for the [ValueError] or [TypeError] raised. *)
Definition int_of `{Builtins} (v : value) : option Z :=
  match v with
  | VInt n => Some n
  | VBool b => Some (if b then 1 else 0)%Z
  | VStr s => int_of_str s
  | VNone | VList _ | VTime _ => None
  end.

(** [n < v] for an integer [n]; [None] stands for the [TypeError] raised when
    [v] is not a number. *)
Definition int_lt (n : Z) (v : value) : option bool :=
  match v with
  | VInt m => Some (n <? m)%Z
  | VBool b => Some (n <? (if b then 1 else 0))%Z
  | VNone | VStr _ | VList _ | VTime _ => None
  end.

(** [v == 0] *)
Definition eq_zero (v : value) : bool :=
  match v with
  | VInt n => (n =? 0)%Z
  | VBool b => negb b
  | VNone | VStr _ | VList _ | VTime _ => false
  end.

End Py.

(** ** Regular expressions as [re] runs them

    The patterns of the spider are sequences of single characters, character
    classes and starred classes, so a pattern is a list of pieces and the
    matcher is the backtracking search of [re]: pieces are tried left to
    right, a greedy star tries the longest repetition first, a lazy one the
    shortest. *)

Module Re.
Import Py.

Inductive atom :=
| Chr (c : N)        (* a literal character *)
| Dot                (* [.] under [re.DOTALL]: any character *)
| NotChr (c : N)     (* [[^c]] *)
| Space.             (* [\s] *)

Inductive piece :=
| One (a : atom)
| Star (a : atom)        (* [a*], greedy *)
| LazyStar (a : atom)    (* [a*?] *)
| Plus (a : atom).       (* [a+], greedy *)

Definition regex := list piece.

(** [re.IGNORECASE] on a pattern character: the two cases of an ASCII
    letter, and the four letters outside ASCII whose case folding meets an
    ASCII letter (U+0130 and U+0131 with i, U+017F with s, U+212A with k). *)
Definition ci_match (p c : N) : bool :=
  let p' := ascii_lower p in
  ((ascii_lower c =? p')
   || (p' =? 105) && ((c =? 304) || (c =? 305))
   || (p' =? 115) && (c =? 383)
   || (p' =? 107) && (c =? 8490))%N.

Definition chr_match (ignorecase : bool) (p c : N) : bool :=
  if ignorecase then ci_match p c else (c =? p)%N.

Definition accepts (ignorecase : bool) (a : atom) (c : N) : bool :=
  match a with
  | Chr p => chr_match ignorecase p c
  | Dot => true
  | NotChr p => negb (chr_match ignorecase p c)
  | Space => isspace c
  end.

Section Matcher.
Variable ignorecase : bool.

(** [a*?] followed by the continuation [k]: the continuation is tried before
    one more character is consumed. *)
Fixpoint lazy_star (a : atom) (k : str -> option str) (s : str) : option str :=
  match k s with
  | Some r => Some r
  | None =>
    match s with
    | c :: s' => if accepts ignorecase a c then lazy_star a k s' else None
    | [] => None
    end
  end.

(** [a*] followed by [k]: one more character is consumed before the
    continuation is tried. *)
Fixpoint greedy_star (a : atom) (k : str -> option str) (s : str) : option str :=
  match s with
  | c :: s' =>
    if accepts ignorecase a c then
      match greedy_star a k s' with
      | Some r => Some r
      | None => k s
      end
    else k s
  | [] => k s
  end.

(** A match of [r] anchored at the start of [s]: the text left after the
    match the backtracking search finds first. *)
Fixpoint match_here (r : regex) (s : str) : option str :=
  match r with
  | [] => Some s
  | One a :: r' =>
    match s with
    | c :: s' => if accepts ignorecase a c then match_here r' s' else None
    | [] => None
    end
  | Star a :: r' => greedy_star a (match_here r') s
  | LazyStar a :: r' => lazy_star a (match_here r') s
  | Plus a :: r' =>
    match s with
    | c :: s' =>
      if accepts ignorecase a c then greedy_star a (match_here r') s' else None
    | [] => None
    end
  end.

(** [re.sub(r, repl, s)]: the leftmost matches, none overlapping, are
    replaced by [repl].  After an empty match the next character is copied.
    [fuel] bounds the number of steps; [S (length s)] is enough. *)
Fixpoint sub_loop (fuel : nat) (r : regex) (repl s : str) : str :=
  match fuel with
  | O => s
  | S fuel' =>
    match match_here r s with
    | Some rest =>
      if (length rest <? length s)%nat then repl ++ sub_loop fuel' r repl rest
      else
        match s with
        | c :: s' => repl ++ c :: sub_loop fuel' r repl s'
        | [] => repl
        end
    | None =>
      match s with
      | c :: s' => c :: sub_loop fuel' r repl s'
      | [] => []
      end
    end
  end.

Definition sub (r : regex) (repl s : str) : str :=
  sub_loop (S (length s)) r repl s.

(** [re.search(r, s) is None]: the pattern matches at no position of [s]. *)
Fixpoint matches_nowhere (r : regex) (s : str) : bool :=
  match match_here r s with
  | Some _ => false
  | None =>
    match s with
    | [] => true
    | _ :: s' => matches_nowhere r s'
    end
  end.

End Matcher.

(** A literal string as a pattern. *)
Definition chars (s : string) : regex := map (fun c => One (Chr c)) (lit s).

End Re.

(** ** The spider: [wechat_spider/spiders/wechat.py] *)

Module Wechat.
Import Py Re.

(** The patterns of [clean_html_content], in the order they are applied. *)
Definition script_re : regex :=
  chars "<script" ++ [LazyStar Dot; One (Chr GT); LazyStar Dot] ++ chars "</script>".
Definition style_re : regex :=
  chars "<style" ++ [LazyStar Dot; One (Chr GT); LazyStar Dot] ++ chars "</style>".
Definition comment_re : regex :=
  chars "<!--" ++ [LazyStar Dot] ++ chars "-->".
Definition br_re : regex := chars "<br" ++ [Star (NotChr GT); One (Chr GT)].
Definition p_open_re : regex := chars "<p" ++ [Star (NotChr GT); One (Chr GT)].
Definition p_close_re : regex := chars "</p>".
Definition div_open_re : regex := chars "<div" ++ [Star (NotChr GT); One (Chr GT)].
Definition div_close_re : regex := chars "</div>".
Definition tag_re : regex := [One (Chr LT); Plus (NotChr GT); One (Chr GT)].
Definition blank_lines_re : regex := [One (Chr LF); Star Space; One (Chr LF)].

(** [clean_html_content], one definition per statement group of the source. *)
Definition remove_scripts (s : str) : str := sub true script_re [] s.
Definition remove_styles (s : str) : str := sub true style_re [] s.
Definition remove_comments (s : str) : str := sub false comment_re [] s.

Definition break_lines (s : str) : str :=
  let s := sub true br_re [LF] s in
  let s := sub true p_open_re [LF] s in
  let s := sub true p_close_re [LF] s in
  let s := sub true div_open_re [LF] s in
  sub true div_close_re [LF] s.

Definition remove_tags (s : str) : str := sub false tag_re [] s.

Definition clean_whitespace (s : str) : str :=
  strip (sub false blank_lines_re [LF; LF] s).

Definition clean_html_content (html_content : str) : str :=
  let html_content := remove_scripts html_content in
  let html_content := remove_styles html_content in
  let html_content := remove_comments html_content in
  let html_content := break_lines html_content in
  let html_content := remove_tags html_content in
  clean_whitespace html_content.


(** *** The classifier *)

Definition common_tags : list str :=
  map lit
    ["技术"; "教程"; "分享"; "经验"; "总结"; "分析"; "研究"; "开发";
     "设计"; "产品"; "运营"; "营销"; "创业"; "投资"; "职场"; "管理";
     "生活"; "健康"; "教育"; "文化"; "艺术"; "娱乐"; "体育"; "旅游"]%string.

(** The [categories] table; a [dict] literal is iterated in the order it is
    written. *)
Definition categories : list (str * list str) :=
  map (fun '(c, ks) => (lit c, map lit ks))
    [("技术", ["技术"; "编程"; "开发"; "代码"; "算法"; "框架"; "工具"]);
     ("生活", ["生活"; "日常"; "经验"; "分享"; "故事"; "感悟"]);
     ("教育", ["教育"; "学习"; "教程"; "培训"; "知识"; "技能"]);
     ("商业", ["商业"; "创业"; "投资"; "营销"; "管理"; "职场"]);
     ("文化", ["文化"; "艺术"; "历史"; "文学"; "音乐"; "电影"]);
     ("健康", ["健康"; "医疗"; "运动"; "养生"; "心理"]);
     ("科技", ["科技"; "科学"; "创新"; "未来"; "人工智能"; "互联网"])]%string.

Definition default_category : str := lit "其他".

Section Classifier.
Context `{Builtins}.

Definition extract_tags (title : str) : list str :=
  let title_lower := str_lower title in
  filter (fun tag => Is_true (contains tag title_lower)) common_tags.

(** The inner loop of [categorize_article]: does some keyword occur? *)
Fixpoint any_keyword (text : str) (keywords : list str) : bool :=
  match keywords with
  | [] => false
  | keyword :: keywords' =>
    if contains keyword text then true else any_keyword text keywords'
  end.

(** The outer loop: the first category one of whose keywords occurs. *)
Fixpoint first_category (text : str) (table : list (str * list str)) : str :=
  match table with
  | [] => default_category
  | (category, keywords) :: table' =>
    if any_keyword text keywords then category else first_category text table'
  end.

Definition categorize_article (title description : str) : str :=
  let text := str_lower (title ++ lit " " ++ description) in
  first_category text categories.

End Classifier.

(** *** Listing entries *)

Section Listing.
Context `{Builtins}.
(** The spider's [account_name], and the clock reading of this callback. *)
Variable account_name : str.
Variable now : Z.

(** [parse_timestamp]: the [ValueError] or [TypeError] of [int] and the
    [ValueError] of [fromtimestamp] are caught and give the time of the
    call; [None] stands for an exception of [fromtimestamp] that is not
    among the ones caught here. *)
Definition parse_timestamp (timestamp : value) : option value :=
  match int_of timestamp with
  | Some t =>
    match fromtimestamp t with
    | Datetime d => Some (VTime d)
    | RaisesValueError => Some (VTime now)
    | RaisesOverflowError => None
    end
  | None => Some (VTime now)
  end.

(** [v.strip()]; [None] stands for the [AttributeError] of a value that is
    not a string. *)
Definition strip_value (v : value) : option str :=
  match v with
  | VStr s => Some (strip s)
  | _ => None
  end.

(** [parse_article_data]: the partial item built from one listing entry, or
    [None] when building it raised. *)
Definition parse_article_data (article_data : dict) (fake_id : value)
  : option dict :=
  title ← strip_value (get_or article_data "title" (VStr []));
  description ← strip_value (get_or article_data "digest" (VStr []));
  publish_time ← parse_timestamp (get_or article_data "create_time" (VInt 0));
  Some
    (<["category" := VStr (categorize_article title description)]>
     (<["tags" := VList (extract_tags title)]>
     (<["source_url" := get_or article_data "source_url" (VStr [])]>
     (<["is_original" := VBool (eq_zero (get_or article_data "is_multi" (VInt 0)))]>
     (<["comment_count" := get_or article_data "comment_cnt" (VInt 0)]>
     (<["like_count" := get_or article_data "like_num" (VInt 0)]>
     (<["read_count" := get_or article_data "read_num" (VInt 0)]>
     (<["cover_image" := get_or article_data "cover" (VStr [])]>
     (<["publish_time" := publish_time]>
     (<["author" := get_or article_data "author" (VStr [])]>
     (<["account_id" := fake_id]>
     (<["account_name" := get_or article_data "show_name" (VStr account_name)]>
     (<["digest" := get_or article_data "digest" (VStr [])]>
     (<["article_id" := get_or article_data "itemid" (VStr [])]>
     (<["url" := get_or article_data "link" (VStr [])]>
     (<["description" := VStr description]>
     (<["title" := VStr title]>
     (<["crawl_time" := VTime now]> ∅)))))))))))))))))).

End Listing.


(** *** Requests and callbacks *)

Inductive spider_callback := parse_article_list_cb | parse_article_content_cb.

(** [response.meta] *)
Inductive meta :=
| ListMeta (fake_id : value) (begin : Z)
| ItemMeta (item : dict).

(** A [scrapy.Request]: the spider passes [url], [callback] and [meta], and
    never an [errback]. *)
Record request := Request {
  url : str;
  callback : spider_callback;
  errback : option spider_callback;
  req_meta : meta
}.

(** What a callback yields. *)
Inductive output :=
| YieldRequest (r : request)
| YieldItem (item : dict).

(** [scrapy.Request] refuses a [url] that is not a string ([TypeError]),
    that does not parse ([ValueError] of [safe_url_string]) or that, once
    escaped, has no scheme ([ValueError]). *)
Definition request_url_ok `{Builtins} (u : value) : bool :=
  match u with
  | VStr s =>
    match safe_url_string s with
    | Some escaped =>
      contains (lit "://") escaped || startswith (lit "about:") escaped
      || startswith (lit "data:") escaped
    | None => false
    end
  | _ => false
  end.

Definition base_url : str := lit "https://mp.weixin.qq.com".
Definition article_url : str := lit "https://mp.weixin.qq.com/cgi-bin/appmsg".

(** [get_token] *)
Definition get_token : str := lit "1234567890".

Definition create_article_request `{Builtins} (fake_id : value) (begin : Z)
  : request :=
  let params :=
    [(lit "action", VStr (lit "list_ex"));
     (lit "begin", VInt begin);
     (lit "count", VInt 5);
     (lit "fakeid", fake_id);
     (lit "type", VInt 9);
     (lit "query", VStr []);
     (lit "token", VStr get_token);
     (lit "lang", VStr (lit "zh_CN"));
     (lit "f", VStr (lit "json"));
     (lit "ajax", VInt 1)] in
  {| url := article_url ++ lit "?"
            ++ join (lit "&")
                 (map (fun '(k, v) => k ++ lit "=" ++ to_str v) params);
     callback := parse_article_list_cb;
     errback := None;
     req_meta := ListMeta fake_id begin |}.

(** The JSON object of a listing response, as far as the spider reads it. *)
Record listing := Listing {
  success : value;
  app_msg_list : list dict;
  total_page_cnt : option value
}.

(** [response.text] of a listing response: [json.loads] raises, or gives an
    object. *)
Inductive listing_body :=
| NotJson
| Json (data : listing).

Section Callbacks.
Context `{Builtins}.
Variable account_name : str.
Variable now : Z.

(** The loop over the entries of a page.  The second component is [false]
    when a [scrapy.Request] raised: the generator ends there, with what it
    had yielded. *)
Fixpoint content_requests (fake_id : value) (articles : list dict)
  : list output * bool :=
  match articles with
  | [] => ([], true)
  | article_data :: articles' =>
    match parse_article_data account_name now article_data fake_id with
    | Some item =>
      match get item "url" with
      | VStr u =>
        if request_url_ok (VStr u) then
          let '(outs, finished) := content_requests fake_id articles' in
          (YieldRequest {| url := u; callback := parse_article_content_cb;
                           errback := None; req_meta := ItemMeta item |}
             :: outs, finished)
        else ([], false)
      | _ => ([], false)
      end
    | None => content_requests fake_id articles'
    end
  end.

(** [parse_article_list] on the response to the listing request whose [meta]
    holds [fake_id] and [begin]. *)
Definition parse_article_list (fake_id : value) (begin : Z)
  (body : listing_body) : list output :=
  match body with
  | NotJson => []
  | Json data =>
    if truthy (success data)
       && match app_msg_list data with [] => false | _ => true end
    then
      let articles := app_msg_list data in
      let '(outs, finished) := content_requests fake_id articles in
      if finished then
        let total_count := default (VInt 0) (total_page_cnt data) in
        let current_count := (begin + Z.of_nat (length articles))%Z in
        match int_lt current_count total_count with
        | Some true =>
          outs ++ [YieldRequest (create_article_request fake_id current_count)]
        | Some false | None => outs
        end
      else outs
    else []
  end.

(** The detail page as the selectors of [parse_article_content] see it:
    [content_html] is the element the first matching selector gives (empty
    when none matches), [img_srcs] the [data-src] and [src] attributes of its
    [img] tags and [video_srcs] the [src] attributes of its [video] tags.  A
    response that is not text has no selectors: [response.css] raises. *)
Record page := Page {
  content_html : str;
  img_srcs : list (option str * option str);
  video_srcs : list (option str)
}.

Inductive response :=
| TextResponse (p : page)
| BinaryResponse.

(** Relative URLs made absolute, as [extract_images] and [extract_videos]
    do it. *)
Definition absolute (src : str) : str :=
  if startswith (lit "//") src then lit "https:" ++ src
  else if startswith (lit "/") src then urljoin base_url src
  else src.

Definition nonempty (o : option str) : option str :=
  match o with
  | Some (c :: s) => Some (c :: s)
  | _ => None
  end.

(** [list(set(images))]: the duplicates are removed; the order Python gives
    is not specified. *)
Definition extract_images (p : page) : list str :=
  remove_dups
    (omap (fun '(data_src, src) =>
             absolute <$> (match nonempty data_src with
                           | Some s => Some s
                           | None => nonempty src
                           end))
          (img_srcs p)).

Definition extract_videos (p : page) : list str :=
  remove_dups (omap (fun src => absolute <$> nonempty src) (video_srcs p)).

(** [parse_article_content]: the item of [response.meta] is completed and
    yielded; when the body of the [try] raises, the [except] branch yields
    the item as it is. *)
Definition parse_article_content (item : dict) (r : response) : list output :=
  match r with
  | BinaryResponse => [YieldItem item]
  | TextResponse p =>
    let content := content_html p in
    let item :=
      match content with
      | [] => item
      | _ =>
        <["videos" := VList (extract_videos p)]>
        (<["images" := VList (extract_images p)]>
        (<["content" := VStr (clean_html_content content)]> item))
      end in
    [YieldItem (<["crawl_time" := VTime now]> item)]
  end.

End Callbacks.

(** *** The engine's side of a request

    A download either gives a response or fails (the connection fails, or
    the status is outside 2xx and the response is filtered out).  A response
    goes to the request's callback; a failure goes to its errback and, when
    the request has none, is logged and yields nothing. *)

Inductive download (A : Type) :=
| Downloaded (r : A)
| DownloadFailed.
Arguments Downloaded {A} r.
Arguments DownloadFailed {A}.

Section Engine.
Context `{Builtins}.
Variable account_name : str.
Variable now : Z.

(** A listing request answered. *)
Definition on_listing (rq : request) (d : download listing_body) : list output :=
  match d, req_meta rq with
  | Downloaded body, ListMeta fake_id begin =>
    parse_article_list account_name now fake_id begin body
  | _, _ => []
  end.

(** A content request answered. *)
Definition on_content (rq : request) (d : download response) : list output :=
  match d, req_meta rq with
  | Downloaded r, ItemMeta item => parse_article_content now item r
  | _, _ => []
  end.

(** The listing request a page's output ends with, if any. *)
Definition next_listing (outs : list output) : option request :=
  match last outs with
  | Some (YieldRequest rq) =>
    match callback rq with
    | parse_article_list_cb => Some rq
    | parse_article_content_cb => None
    end
  | _ => None
  end.

Definition begin_of (rq : request) : Z :=
  match req_meta rq with
  | ListMeta _ begin => begin
  | ItemMeta _ => 0%Z
  end.

(** The chain of listing requests of one crawl: [server] answers the request
    for offset [begin]; the result lists the outputs of every page fetched,
    with the offset requested.  [None] when [fuel] pages were not enough. *)
Fixpoint crawl_listing (fuel : nat) (server : Z -> download listing_body)
  (rq : request) : option (list (Z * list output)) :=
  match fuel with
  | O => None
  | S fuel' =>
    let begin := begin_of rq in
    let outs := on_listing rq (server begin) in
    match next_listing outs with
    | Some rq' => cons (begin, outs) <$> crawl_listing fuel' server rq'
    | None => Some [(begin, outs)]
    end
  end.

End Engine.

End Wechat.

(** ** The item pipelines: [wechat_spider/pipelines.py] *)

Module Pipelines.
Import Py.

Inductive level := DEBUG | INFO | ERROR.

(** The exceptions of the pipeline stages.  [StoreError] is whatever a
    client library raises when its store cannot serve the call (including
    the [AttributeError] of a connection that [open_spider] failed to
    set). *)
Inductive exn :=
| DropItem (reason : drop_reason)
| AttributeError
| StoreError
with drop_reason :=
| Duplicate_item_found
| Error_saving_item_to_MongoDB (e : exn)
| Missing_title
| Missing_content
| Missing_url.

(** The two stores and the spider's log.  [articles] is the collection
    [db.articles], in insertion order; [es_docs] the index, each document
    under its id ([None] for an id the index generated). *)
Record stores := Stores {
  mongo_up : bool;
  articles : list dict;
  es_up : bool;
  es_docs : list (option value * dict);
  logged : list (level * string)
}.

Inductive result (A : Type) :=
| Return (a : A)
| Raise (e : exn).
Arguments Return {A} a.
Arguments Raise {A} e.

(** A stage runs against the stores and returns or raises. *)
Definition M (A : Type) : Type := stores -> result A * stores.

#[global] Instance M_ret : MRet M := fun A a st => (Return a, st).
#[global] Instance M_bind : MBind M := fun A B f m st =>
  match m st with
  | (Return a, st') => f a st'
  | (Raise e, st') => (Raise e, st')
  end.

Definition raise {A} (e : exn) : M A := fun st => (Raise e, st).

(** [try: body except Exception as e: handler(e)] *)
Definition try_except {A} (body : M A) (handler : exn -> M A) : M A :=
  fun st =>
    match body st with
    | (Return a, st') => (Return a, st')
    | (Raise e, st') => handler e st'
    end.

Definition log (l : level) (msg : string) : M unit := fun st =>
  (Return tt,
   {| mongo_up := mongo_up st; articles := articles st; es_up := es_up st;
      es_docs := es_docs st; logged := logged st ++ [(l, msg)] |}).

(** [db.articles.find_one({'article_id': article_id})]: the first document
    whose field equals [article_id]; a missing field is [None]. *)
Definition find_one (article_id : value) : M (option dict) := fun st =>
  if mongo_up st then
    (Return (List.find (fun doc => bool_decide (get doc "article_id" = article_id))
                       (articles st)), st)
  else (Raise StoreError, st).

(** The number of stored documents with a given [article_id]. *)
Definition copies (article_id : value) (docs : list dict) : nat :=
  length (List.filter (fun doc => bool_decide (get doc "article_id" = article_id)) docs).

(** [db.articles.insert_one(doc)] *)
Definition insert_one (doc : dict) : M unit := fun st =>
  if mongo_up st then
    (Return tt,
     {| mongo_up := mongo_up st; articles := articles st ++ [doc];
        es_up := es_up st; es_docs := es_docs st; logged := logged st |})
  else (Raise StoreError, st).

(** The documents of the index with [doc] put under [doc_id]: a document
    with that id is overwritten, and a new one is added otherwise, or when
    the id is [None] and the index makes one up. *)
Fixpoint upsert (doc_id : value) (doc : dict) (docs : list (option value * dict))
  : list (option value * dict) :=
  match doc_id with
  | VNone => docs ++ [(None, doc)]
  | _ =>
    match docs with
    | [] => [(Some doc_id, doc)]
    | (i, d) :: docs' =>
      if bool_decide (i = Some doc_id) then (i, doc) :: docs'
      else (i, d) :: upsert doc_id doc docs'
    end
  end.

(** [es.index(index=es_index, id=doc_id, body=doc)] *)
Definition es_index (doc_id : value) (doc : dict) : M unit := fun st =>
  if es_up st then
    (Return tt,
     {| mongo_up := mongo_up st; articles := articles st; es_up := es_up st;
        es_docs := upsert doc_id doc (es_docs st); logged := logged st |})
  else (Raise StoreError, st).

Section Stages.
Context `{Builtins}.

(** [dict(item)] with every [datetime] replaced by its ISO text. *)
Definition to_document (item : dict) : dict :=
  (fun v => match v with VTime t => VStr (isoformat t) | _ => v end) <$> item.

Definition MongoPipeline_process_item (item : dict) : M dict :=
  try_except
    (existing ← find_one (get item "article_id");
     match existing with
     | Some _ =>
       log DEBUG "Article already exists";;
       raise (DropItem Duplicate_item_found)
     | None =>
       insert_one (to_document item);;
       log INFO "Article saved to MongoDB";;
       mret item
     end)
    (fun e =>
       log ERROR "Error saving to MongoDB";;
       raise (DropItem (Error_saving_item_to_MongoDB e))).

Definition ElasticsearchPipeline_process_item (item : dict) : M dict :=
  try_except
    (let doc := to_document item in
     let doc_id := get doc "article_id" in
     es_index doc_id doc;;
     log INFO "Article indexed in Elasticsearch";;
     mret item)
    (fun e =>
       log ERROR "Error indexing in Elasticsearch";;
       mret item).

Definition ValidationPipeline_process_item (item : dict) : M dict :=
  if negb (truthy (get item "title")) then raise (DropItem Missing_title)
  else if negb (truthy (get item "content")) then raise (DropItem Missing_content)
  else if negb (truthy (get item "url")) then raise (DropItem Missing_url)
  else mret item.

(** [if item.get(key): item[key] = f(item[key])] for a string method [f]. *)
Definition clean_str (f : str -> str) (key : string) (item : dict) : M dict :=
  if truthy (get item key) then
    match get item key with
    | VStr s => mret (<[key := VStr (f s)]> item)
    | _ => raise AttributeError
    end
  else mret item.

(** The body of the loop over the numeric fields. *)
Definition clean_int (field : string) (item : dict) : dict :=
  if truthy (get item field) then
    <[field := VInt (default 0%Z (int_of (get item field)))]> item
  else item.

Definition CleaningPipeline_process_item (item : dict) : M dict :=
  item ← clean_str strip "title" item;
  item ← clean_str (fun content => join (lit " ") (split content)) "content" item;
  item ← clean_str strip "description" item;
  mret (foldl (fun item field => clean_int field item) item
          ["read_count"; "like_count"; "comment_count"]%string).

Inductive pipeline :=
| MongoPipeline
| ElasticsearchPipeline
| ValidationPipeline
| CleaningPipeline.

Definition process_item (p : pipeline) : dict -> M dict :=
  match p with
  | MongoPipeline => MongoPipeline_process_item
  | ElasticsearchPipeline => ElasticsearchPipeline_process_item
  | ValidationPipeline => ValidationPipeline_process_item
  | CleaningPipeline => CleaningPipeline_process_item
  end.

(** The item pipeline manager: each stage gets what the one before it
    returned, and an exception ends the chain for the item. *)
Fixpoint run_pipelines (chain : list pipeline) (item : dict) : M dict :=
  match chain with
  | [] => mret item
  | p :: chain' => item' ← process_item p item; run_pipelines chain' item'
  end.

End Stages.

(** [ITEM_PIPELINES] maps a stage to its order; the chain is the stages by
    increasing order. *)
Fixpoint insert_by_order (p : pipeline * Z) (l : list (pipeline * Z))
  : list (pipeline * Z) :=
  match l with
  | [] => [p]
  | q :: l' => if (snd p <? snd q)%Z then p :: l else q :: insert_by_order p l'
  end.

Definition build_chain (setting : list (pipeline * Z)) : list pipeline :=
  fst <$> foldr insert_by_order [] setting.

End Pipelines.

(** ** The crawl manager: [app.py] *)

Module App.
Import Py Pipelines.

(** The manager's [progress]: an [int] (0 at the start, 100 in the last
    event) or the [float] the hook computes, [crawled / total * 100] with the
    true division of two integers, kept as the expression it is the value
    of. *)
Inductive number :=
| Int (n : Z)
| Percentage (crawled total : Z).

Record CrawlerManager := Manager {
  is_running : bool;
  current_task : option str;
  progress : number;
  total_articles : Z;
  crawled_articles : Z
}.

(** [CrawlerManager.__init__] *)
Definition init : CrawlerManager :=
  {| is_running := false; current_task := None; progress := Int 0;
     total_articles := 0; crawled_articles := 0 |}.

(** A [crawl_progress] event. *)
Record event := Event {
  ev_progress : number;
  ev_crawled : Z;
  ev_total : Z;
  ev_current_article : option value;
  ev_status : string;
  ev_error : option exn
}.

(** [start_crawling]: the answer, and the manager after it.  The crawl
    itself runs in its own thread. *)
Definition start_crawling (account_name : str) (m : CrawlerManager)
  : (bool * string) * CrawlerManager :=
  if is_running m then ((false, "Crawler is already running"%string), m)
  else
    ((true, "Crawling started"%string),
     {| is_running := true; current_task := Some account_name;
        progress := Int 0; total_articles := total_articles m;
        crawled_articles := 0 |}).

(** [ITEM_PIPELINES] as [_crawl_articles] sets it. *)
Definition ITEM_PIPELINES : list (pipeline * Z) :=
  [(MongoPipeline, 300%Z); (ElasticsearchPipeline, 400%Z)].

(** The chain this setting installs. *)
Definition installed_chain : list pipeline := build_chain ITEM_PIPELINES.

(** [SocketIOWechatSpider.process_item], a method of the spider class:
    the manager after a call and the event the call emits.  The only code
    that adds to [crawled_articles] or emits an event with the status
    "crawling". *)
Definition process_item (item : dict) (m : CrawlerManager)
  : CrawlerManager * event :=
  let crawled := (crawled_articles m + 1)%Z in
  let progress := Percentage crawled (Z.max (total_articles m) 1) in
  let m' :=
    {| is_running := is_running m; current_task := current_task m;
       progress := progress; total_articles := total_articles m;
       crawled_articles := crawled |} in
  (m',
   {| ev_progress := progress; ev_crawled := crawled;
      ev_total := total_articles m;
      ev_current_article := Some (get_or item "title" (VStr []));
      ev_status := "crawling"; ev_error := None |}).

(** The end of [_crawl_articles] once [process.start()] has returned. *)
Definition crawl_completed (m : CrawlerManager) : CrawlerManager * event :=
  ({| is_running := false; current_task := current_task m;
      progress := progress m; total_articles := total_articles m;
      crawled_articles := crawled_articles m |},
   {| ev_progress := Int 100; ev_crawled := crawled_articles m;
      ev_total := total_articles m; ev_current_article := None;
      ev_status := "completed"; ev_error := None |}).

Section Crawl.
Context `{Builtins}.

(** [process.crawl] and [process.start]: the items the spider yields go
    through the chain built from [ITEM_PIPELINES], one after the other, and
    a dropped item ends its own chain only.  Scrapy calls [process_item] on
    the stages of that chain; a method of that name on the spider is not
    among them and is never called. *)
Fixpoint crawl_items (yielded : list dict) (st : stores)
  : list (result dict) * stores :=
  match yielded with
  | [] => ([], st)
  | item :: yielded' =>
    let '(r, st1) := run_pipelines installed_chain item st in
    let '(rs, st2) := crawl_items yielded' st1 in
    (r :: rs, st2)
  end.

(** [_crawl_articles] for a crawl in which the spider yields the items
    [yielded]: the stores and the manager after it, and the events
    emitted. *)
Definition crawl_articles (yielded : list dict) (st : stores)
  (m : CrawlerManager) : stores * CrawlerManager * list event :=
  let '(_, st') := crawl_items yielded st in
  let '(m', e) := crawl_completed m in
  (st', m', [e]).

(** A run: [start_crawling] and, when it accepts, the thread it starts,
    which runs [_crawl_articles] to its end. *)
Definition run (account_name : str) (yielded : list dict) (st : stores)
  (m : CrawlerManager)
  : (bool * string) * (stores * CrawlerManager * list event) :=
  let '(answer, m1) := start_crawling account_name m in
  if fst answer then (answer, crawl_articles yielded st m1)
  else (answer, (st, m1, [])).

End Crawl.

End App.

(** * Notions the properties are stated with *)

Module Notions.
Import Py Re Wechat.

(** No keyword of the list occurs in the text. *)
Definition none_occurs (text : str) (keywords : list str) : Prop :=
  forall keyword, In keyword keywords -> ~ occurs keyword text.

(** *** Pagination *)

(** Every output of the loop over the entries is a content request. *)
Definition content_only (outs : list output) : Prop :=
  Forall (fun o => exists rq, o = YieldRequest rq
                              /\ callback rq = parse_article_content_cb) outs.

(** No page reports a total above [T]. *)
Definition totals_at_most (server : Z -> download listing_body) (T : Z) : Prop :=
  forall begin data,
    server begin = Downloaded (Json data) ->
    int_lt T (default (VInt 0) (total_page_cnt data)) <> Some true.

(** The offsets of a chain of pages advance by the number of entries each
    page returned. *)
Fixpoint advances (server : Z -> download listing_body)
  (pages : list (Z * list output)) : Prop :=
  match pages with
  | (begin, _) :: (((begin', _) :: _) as pages') =>
    (exists data, server begin = Downloaded (Json data)
                  /\ app_msg_list data <> []
                  /\ begin' = (begin + Z.of_nat (length (app_msg_list data)))%Z)
    /\ advances server pages'
  | _ => True
  end.

Section Pagination.
Context `{Builtins}.
Variable account_name : str.
Variable now : Z.

(** When a next page is requested. *)
Definition more_pages (begin : Z) (data : listing) (fake_id : value) : Prop :=
  truthy (success data) = true
  /\ app_msg_list data <> []
  /\ snd (content_requests account_name now fake_id (app_msg_list data)) = true
  /\ int_lt (begin + Z.of_nat (length (app_msg_list data)))
       (default (VInt 0) (total_page_cnt data)) = Some true.

(** The outputs of the callback for a listing request answered by [d]. *)
Definition page_outputs (fake_id : value) (begin : Z)
  (d : download listing_body) : list output :=
  on_listing account_name now (create_article_request fake_id begin) d.

End Pagination.

(** *** Patterns *)

(** The pattern matches at no suffix of [s]: what [matches_nowhere]
    decides. *)
Definition never_matches (ic : bool) (r : regex) (s : str) : Prop :=
  forall a b, s = a ++ b -> match_here ic r b = None.

(** The patterns the matcher goes on with once it has matched the first
    pieces of [r]. *)
Fixpoint continuations (r : regex) : list regex :=
  match r with
  | [] => []
  | Plus a :: r' => (Plus a :: r') :: (Star a :: r') :: continuations r'
  | p :: r' => (p :: r') :: continuations r'
  end.

Section TwoRuns.
Variables X Y post : str.

(** The outcomes of one match run on [u ++ X] and on [u ++ Y]: none in
    both, the same stretch of [u] left in both, or [post] left in both. *)
Inductive same_outcome : option str -> option str -> Prop :=
| so_none : same_outcome None None
| so_inside (p : str) : same_outcome (Some (p ++ X)) (Some (p ++ Y))
| so_past : same_outcome (Some post) (Some post).

Definition uniform (k : str -> option str) : Prop :=
  forall u, same_outcome (k (u ++ X)) (k (u ++ Y)).

End TwoRuns.

(** *** Whitespace *)

(** The step of [clean_html_content] that rewrites blank lines. *)
Definition collapse (s : str) : str := sub false blank_lines_re [LF; LF] s.

(** A newline is among the whitespace [s] starts with. *)
Fixpoint nl_ahead (s : str) : bool :=
  match s with
  | c :: s' => if (c =? LF)%N then true else if isspace c then nl_ahead s' else false
  | [] => false
  end.

Definition after_nl (s : str) : str :=
  match s with
  | c :: s' => if (c =? LF)%N then s' else s
  | [] => []
  end.

(** Every newline is followed by at most one more newline, right after it,
    within the whitespace that follows. *)
Fixpoint collapsed (s : str) : Prop :=
  match s with
  | [] => True
  | c :: s' => (c = LF -> nl_ahead (after_nl s') = false) /\ collapsed s'
  end.

(** The last piece of [blank_lines_re] and of [tag_re]. *)
Definition nl_k : str -> option str := match_here false [One (Chr LF)].
Definition gt_k : str -> option str := match_here false [One (Chr GT)].

(** The first character, if any, is not whitespace. *)
Definition starts_clean (s : str) : Prop :=
  match s with
  | c :: _ => isspace c = false
  | [] => True
  end.

(** [thinned x y]: [y] is [x] with some whitespace characters left out. *)
Inductive thinned : str -> str -> Prop :=
| thin_nil : thinned [] []
| thin_keep (c : N) (x y : str) : thinned x y -> thinned (c :: x) (c :: y)
| thin_drop (c : N) (x y : str) :
    isspace c = true -> thinned x y -> thinned (c :: x) y.

(** *** Tags and script blocks *)

(** [s] holds no HTML tag: the pattern by which [clean_html_content]
    recognises a tag matches nowhere in it. *)
Definition tag_free (s : str) : Prop := matches_nowhere false tag_re s = true.

(** A [<] followed by a character other than [>] and, later, by a [>]. *)
Definition has_tag (s : str) : Prop :=
  exists a c s', s = a ++ LT :: c :: s' /\ c <> GT /\ In GT s'.

(** The closing tag as [script_re] looks for it. *)
Definition close_re : regex := chars "</script>".

(** A script element: the opening tag with its attributes, the body and the
    closing tag. *)
Definition script_block (attrs body : str) : str :=
  lit "<script" ++ attrs ++ [GT] ++ body ++ lit "</script>".

(** The body holds no closing tag of its own, in any case of the letters. *)
Definition close_free (body : str) : Prop :=
  matches_nowhere true close_re body = true.

(** The continuations of [script_re] after the first [.*?] and after the
    second. *)
Definition k2 : str -> option str := match_here true close_re.
Definition k1 : str -> option str :=
  match_here true (One (Chr GT) :: LazyStar Dot :: close_re).

(** Which continuations of [script_re] match at the start of a block. *)
Definition script_expected : list bool :=
  [true; false; false; false; false; false; false; true; false; true;
   false; false; false; false; false; false; false; false; false].

End Notions.

(** * Example inputs *)

Module Examples.
Import Py Re Wechat Pipelines.

(** Builtins for running the definitions on examples: the ASCII lower-case
    mapping, decimal digits for [int], every timestamp in range, URLs that
    parse unless the port of their authority is not a number (and need no
    escaping), and joined by writing the path after the origin. *)
Fixpoint decimal (acc : Z) (s : str) : option Z :=
  match s with
  | [] => Some acc
  | c :: s' =>
    if ((48 <=? c) && (c <=? 57))%N then decimal (10 * acc + Z.of_N (c - 48)) s'
    else None
  end.

(** The text after the first "://". *)
Fixpoint after_scheme (s : str) : option str :=
  if startswith (lit "://") s then Some (drop 3 s)
  else match s with
       | [] => None
       | _ :: s' => after_scheme s'
       end.

(** The authority: what comes before the first [/], [?] or [#]. *)
Fixpoint authority (s : str) : str :=
  match s with
  | [] => []
  | c :: s' =>
    if ((c =? 47) || (c =? 63) || (c =? 35))%N then [] else c :: authority s'
  end.

(** The text after the last colon of the authority, if it has a colon. *)
Fixpoint port (seen : option str) (a : str) : option str :=
  match a with
  | [] => seen
  | c :: a' =>
    if (c =? 58)%N then port (Some []) a'
    else port ((fun p => p ++ [c]) <$> seen) a'
  end.

Definition example_safe_url_string (s : str) : option str :=
  match after_scheme s with
  | Some rest =>
    match port None (authority rest) with
    | Some p =>
      if forallb (fun c => (48 <=? c) && (c <=? 57))%N p then Some s else None
    | None => Some s
    end
  | None => Some s
  end.

Definition example_builtins : Builtins :=
  {| str_lower := map ascii_lower;
     int_of_str := fun s => match s with [] => None | _ => decimal 0 s end;
     fromtimestamp := Datetime;
     isoformat := fun t => lit "1970-01-01T00:00:00";
     to_str := fun v => match v with VStr s => s | _ => [] end;
     safe_url_string := example_safe_url_string;
     urljoin := fun base src => base ++ src |}.

Definition empty_stores : stores :=
  {| mongo_up := true; articles := []; es_up := true; es_docs := [];
     logged := [] |}.

(** An item whose [url] is one space. *)
Definition blank_url_item : dict :=
  <["title" := VStr (lit "t")]>
  (<["content" := VStr (lit "c")]>
  (<["url" := VStr (lit " ")]> ∅)).

(** Two records with the same [article_id]. *)
Definition first_copy : dict :=
  <["article_id" := VStr (lit "a1")]>
  (<["title" := VStr (lit "first")]>
  (<["crawl_time" := VTime 5]> ∅)).

Definition second_copy : dict :=
  <["article_id" := VStr (lit "a1")]>
  (<["title" := VStr (lit "second")]>
  (<["crawl_time" := VTime 9]> ∅)).

(** A record with no [content], which the Validation stage drops. *)
Definition contentless_item : dict :=
  <["article_id" := VStr (lit "a3")]>
  (<["title" := VStr (lit "t")]>
  (<["url" := VStr (lit "https://mp.weixin.qq.com/s/y")]> ∅)).

(** A record with no [content] and a read count still in text form. *)
Definition unvalidated_item : dict :=
  <["article_id" := VStr (lit "a2")]>
  (<["title" := VStr (lit "t")]>
  (<["url" := VStr (lit "https://mp.weixin.qq.com/s/x")]>
  (<["read_count" := VStr (lit "12")]> ∅))).

(** Stores that already hold a record with the [article_id] of
    [second_copy]. *)
Definition stores_with_first_copy : stores :=
  {| mongo_up := true; articles := [first_copy]; es_up := true;
     es_docs := [(Some (VStr (lit "a1")), first_copy)]; logged := [] |}.

(** Listing entries, and a source of seven articles served five at a time. *)
Definition entry (n : Z) : dict :=
  <["title" := VStr (lit "article")]>
  (<["link" := VStr (lit "https://mp.weixin.qq.com/s/x")]>
  (<["itemid" := VInt n]> ∅)).

Definition page_of (ids : list Z) (total : Z) : listing_body :=
  Json {| success := VBool true; app_msg_list := entry <$> ids;
          total_page_cnt := Some (VInt total) |}.

Definition seven_articles (begin : Z) : download listing_body :=
  if (begin =? 0)%Z then Downloaded (page_of [1; 2; 3; 4; 5]%Z 7)
  else if (begin =? 5)%Z then Downloaded (page_of [6; 7]%Z 7)
  else Downloaded (page_of [] 7).

Definition fake_id_example : value := VStr (lit "MzA").

(** A page of one entry whose link has a scheme and a port that is no
    number, with more articles to come. *)
Definition bad_port_page : listing_body :=
  Json {| success := VBool true;
          app_msg_list :=
            [<["title" := VStr (lit "article")]>
             (<["link" := VStr (lit "https://mp.weixin.qq.com:port/s")]> ∅)];
          total_page_cnt := Some (VInt 7) |}.

(** The content request of the first entry. *)
Definition content_request_example : request :=
  match @parse_article_list example_builtins (lit "account") 0 fake_id_example 0
          (page_of [1]%Z 1) with
  | YieldRequest rq :: _ => rq
  | _ => @create_article_request example_builtins VNone 0
  end.

(** Three records of one crawl. *)
Definition article (n : Z) : dict :=
  <["article_id" := VInt n]>
  (<["title" := VStr (lit "article")]>
  (<["content" := VStr (lit "text")]>
  (<["url" := VStr (lit "https://mp.weixin.qq.com/s/x")]> ∅))).

(** A content request whose [meta] carries the first of them. *)
Definition plain_content_request : request :=
  {| url := lit "https://mp.weixin.qq.com/s/x";
     callback := parse_article_content_cb;
     errback := None;
     req_meta := ItemMeta (article 1) |}.

(** Text with a comparison sign and blank lines, but no tag. *)
Definition plain_text : str := lit "  1 < 2

   
	
 next line  ".

(** A page fragment with a script element before its visible text. *)
Definition fragment_pre : str := lit "<p>Title</p>".
Definition fragment_attrs : str := lit " type='text/javascript'".
Definition fragment_body : str := lit "if (a < b) { alert('x'); }".
Definition fragment_post : str := lit "<div>Hello</div>".

End Examples.

(** * Properties *)

Import Py Re Wechat Pipelines Notions Examples.

(** ** Validation *)

(** The Validation stage returns the record or drops it, by the truth
    values of the three fields as they stand. *)
Lemma validation_cases (item : dict) (st : stores) :
  (ValidationPipeline_process_item item st = (Return item, st)
   /\ truthy (get item "title") = true
   /\ truthy (get item "content") = true
   /\ truthy (get item "url") = true)
  \/ (exists reason, ValidationPipeline_process_item item st
                     = (Raise (DropItem reason), st)
      /\ (truthy (get item "title") = false
          \/ truthy (get item "content") = false
          \/ truthy (get item "url") = false)).
Proof.
  unfold ValidationPipeline_process_item.
  destruct (truthy (get item "title")) eqn:Ht; simpl;
    [ | right; eexists; split; [reflexivity | auto] ].
  destruct (truthy (get item "content")) eqn:Hc; simpl;
    [ | right; eexists; split; [reflexivity | auto] ].
  destruct (truthy (get item "url")) eqn:Hu; simpl;
    [ | right; eexists; split; [reflexivity | auto] ].
  left. auto.
Qed.

(** ** The document store *)

Section MongoFacts.
Context `{Builtins}.

Lemma find_none_copies (article_id : value) (docs : list dict) :
  List.find (fun doc => bool_decide (get doc "article_id" = article_id)) docs = None
  <-> copies article_id docs = 0.
Proof.
  unfold copies. induction docs as [|d docs IH]; simpl; [tauto|].
  destruct (bool_decide (get d "article_id" = article_id)); simpl.
  - split; discriminate.
  - exact IH.
Qed.

Lemma to_document_article_id (item : dict) :
  get item "article_id" = VNone \/ (exists s, get item "article_id" = VStr s)
  \/ (exists n, get item "article_id" = VInt n)
  \/ (exists b, get item "article_id" = VBool b)
  \/ (exists l, get item "article_id" = VList l)
  -> get (to_document item) "article_id" = get item "article_id".
Proof.
  unfold get, to_document. rewrite lookup_fmap.
  destruct (item !! "article_id") as [v|]; simpl; [|reflexivity].
  intros [->|[[s ->]|[[n ->]|[[b ->]|[l ->]]]]]; reflexivity.
Qed.

Lemma copies_app (article_id : value) (l1 l2 : list dict) :
  copies article_id (l1 ++ l2) = copies article_id l1 + copies article_id l2.
Proof. unfold copies. rewrite List.filter_app, length_app. reflexivity. Qed.

(** The first of two records with a new [article_id] is inserted. *)
Lemma mongo_inserts_new (item : dict) (st : stores) :
  mongo_up st = true ->
  copies (get item "article_id") (articles st) = 0 ->
  MongoPipeline_process_item item st
  = (Return item,
     {| mongo_up := true; articles := articles st ++ [to_document item];
        es_up := es_up st; es_docs := es_docs st;
        logged := logged st ++ [(INFO, "Article saved to MongoDB"%string)] |}).
Proof.
  intros Hup Hnone. apply find_none_copies in Hnone.
  unfold MongoPipeline_process_item, try_except, mbind, M_bind, find_one,
    insert_one, log, mret, M_ret.
  rewrite Hup, Hnone. simpl. rewrite Hup. reflexivity.
Qed.

(** A record whose [article_id] is stored already is dropped, through the
    handler of the [try]. *)
Lemma mongo_drops_known (item : dict) (st : stores) :
  mongo_up st = true ->
  copies (get item "article_id") (articles st) <> 0 ->
  MongoPipeline_process_item item st
  = (Raise (DropItem (Error_saving_item_to_MongoDB (DropItem Duplicate_item_found))),
     {| mongo_up := true; articles := articles st;
        es_up := es_up st; es_docs := es_docs st;
        logged := logged st ++ [(DEBUG, "Article already exists"%string);
                                (ERROR, "Error saving to MongoDB"%string)] |}).
Proof.
  intros Hup Hsome.
  unfold MongoPipeline_process_item, try_except, mbind, M_bind, find_one,
    log, raise.
  rewrite Hup.
  destruct (List.find _ (articles st)) as [d|] eqn:Hfind.
  - simpl. rewrite Hup, <- app_assoc. reflexivity.
  - apply find_none_copies in Hfind. contradiction.
Qed.

End MongoFacts.

(** A document put in the index is in the index. *)
Lemma upsert_holds (doc_id : value) (doc : dict)
  (docs : list (option value * dict)) :
  In doc (snd <$> upsert doc_id doc docs).
Proof.
  assert (Hend : In doc (snd <$> (docs ++ [(None, doc)]))).
  { rewrite fmap_app. apply in_or_app. right. left. reflexivity. }
  induction docs as [|[i d] docs IH].
  - destruct doc_id; simpl; auto.
  - destruct doc_id; try exact Hend; cbn [upsert];
      (destruct (bool_decide (i = Some _));
       [ left; reflexivity
       | right; apply IH; rewrite fmap_app; apply in_or_app; right; left;
         reflexivity ]).
Qed.

(** ** Validation and the chain a crawl installs *)

(** C1, as stated, fails on both counts: a [url] that is empty after
    trimming passes the Validation stage, which tests the fields as they
    are; and a record the Validation stage drops (it has no [content]) is
    written to the document store and to the search index by the chain a
    crawl installs, which has no Validation stage. *)
Lemma blank_url_passes_and_invalid_record_is_stored :
  (strip (lit " ") = []
   /\ ValidationPipeline_process_item blank_url_item empty_stores
      = (Return blank_url_item, empty_stores))
  /\ ValidationPipeline_process_item contentless_item empty_stores
     = (Raise (DropItem Missing_content), empty_stores)
  /\ exists st',
       @run_pipelines example_builtins App.installed_chain contentless_item
         empty_stores = (Return contentless_item, st')
       /\ articles st' = [@to_document example_builtins contentless_item]
       /\ es_docs st'
          = [(Some (VStr (lit "a3")),
              @to_document example_builtins contentless_item)].
Proof.
  split; [split; reflexivity|]. split; [reflexivity|].
  eexists. split; [vm_compute; reflexivity|]. split; reflexivity.
Qed.

(** C1 (amended): the Validation stage drops a record exactly when its
    [title], [content] or [url] is missing or empty as it stands (no
    trimming).  The chain a crawl installs has no Validation stage, so a
    record the stage would drop is not kept from the stores: like any
    other record it is written to the document store and to the search
    index when its [article_id] is new and both stores serve the call. *)
Theorem validation_drops_iff_missing_field `{Builtins} (item : dict)
  (st : stores) :
  ((exists reason,
       ValidationPipeline_process_item item st = (Raise (DropItem reason), st))
   <-> (truthy (get item "title") = false
        \/ truthy (get item "content") = false
        \/ truthy (get item "url") = false))
  /\ ~ In ValidationPipeline App.installed_chain
  /\ ((exists reason,
         ValidationPipeline_process_item item st = (Raise (DropItem reason), st))
      -> mongo_up st = true -> es_up st = true
      -> copies (get item "article_id") (articles st) = 0
      -> exists st',
           run_pipelines App.installed_chain item st = (Return item, st')
           /\ In (to_document item) (articles st')
           /\ In (to_document item) (snd <$> es_docs st')).
Proof.
  split; [split|split].
  - intros [reason Hdrop].
    destruct (validation_cases item st) as [[Hret _]|[r [_ Hf]]]; [|exact Hf].
    rewrite Hret in Hdrop. discriminate.
  - intros Hf.
    destruct (validation_cases item st) as [[_ (Ht & Hc & Hu)]|[r [Hd _]]].
    + destruct Hf as [Hf|[Hf|Hf]]; congruence.
    + exists r. exact Hd.
  - intros [Hx|[Hx|[]]]; discriminate.
  - intros _ Hm He Hnew.
    change App.installed_chain with [MongoPipeline; ElasticsearchPipeline].
    cbn [run_pipelines process_item]. unfold mbind at 1, M_bind at 1.
    rewrite (mongo_inserts_new item st Hm Hnew).
    unfold ElasticsearchPipeline_process_item, try_except, mbind, M_bind,
      es_index, log, mret, M_ret. simpl. rewrite He. simpl.
    eexists. split; [reflexivity|]. simpl. split.
    + apply in_or_app. right. left. reflexivity.
    + apply upsert_holds.
Qed.

(** C2: of two records with the same [article_id] (a string) processed by
    the document-store stage against a store that serves the calls and has
    no such record, the first is inserted and the second is dropped, so the
    store holds exactly one copy; but the drop of the second goes through
    the stage's error handler: it is logged as an error saving to MongoDB,
    and the [DropItem] raised is the handler's, wrapping the duplicate. *)
Theorem mongo_duplicate_reported_as_error `{Builtins}
  (a b : dict) (id : str) (st : stores) :
  get a "article_id" = VStr id ->
  get b "article_id" = VStr id ->
  mongo_up st = true ->
  copies (VStr id) (articles st) = 0 ->
  exists st1 st2,
    MongoPipeline_process_item a st = (Return a, st1)
    /\ MongoPipeline_process_item b st1
       = (Raise (DropItem (Error_saving_item_to_MongoDB
                             (DropItem Duplicate_item_found))), st2)
    /\ copies (VStr id) (articles st2) = 1
    /\ articles st2 = articles st ++ [to_document a]
    /\ In (ERROR, "Error saving to MongoDB"%string) (logged st2).
Proof.
  intros Ha Hb Hup Hnone.
  eexists _, _. split.
  { apply mongo_inserts_new; [exact Hup | rewrite Ha; exact Hnone]. }
  assert (Hda : get (to_document a) "article_id" = VStr id).
  { rewrite to_document_article_id; [exact Ha | right; left; eauto]. }
  assert (Hone : copies (VStr id) (articles st ++ [to_document a]) = 1).
  { rewrite copies_app, Hnone. unfold copies. simpl.
    rewrite Hda. rewrite bool_decide_eq_true_2 by reflexivity. reflexivity. }
  split.
  { apply mongo_drops_known; [reflexivity|]. simpl. rewrite Hb, Hone. discriminate. }
  simpl. split; [exact Hone|]. split; [reflexivity|].
  apply in_or_app. right. simpl. auto.
Qed.

Lemma mongo_duplicate_reported_as_error_witness :
  exists st1 st2,
    @MongoPipeline_process_item example_builtins first_copy empty_stores
    = (Return first_copy, st1)
    /\ @MongoPipeline_process_item example_builtins second_copy st1
       = (Raise (DropItem (Error_saving_item_to_MongoDB
                             (DropItem Duplicate_item_found))), st2)
    /\ copies (VStr (lit "a1")) (articles st2) = 1
    /\ articles st2 = articles empty_stores ++ [@to_document example_builtins first_copy]
    /\ In (ERROR, "Error saving to MongoDB"%string) (logged st2).
Proof.
  apply (@mongo_duplicate_reported_as_error example_builtins
           first_copy second_copy (lit "a1") empty_stores);
    reflexivity.
Defined.

(** ** The search index *)

(** C3: whatever the record and the state of the index, the search-index
    stage returns the record it was given and never raises; when the write
    fails the index is left as it was, the failure is logged, and the next
    stage of the chain receives the record. *)
Theorem es_failure_is_swallowed `{Builtins} (item : dict) (st : stores) :
  (exists st', ElasticsearchPipeline_process_item item st = (Return item, st'))
  /\ (es_up st = false ->
      ElasticsearchPipeline_process_item item st
      = (Return item,
         {| mongo_up := mongo_up st; articles := articles st;
            es_up := es_up st; es_docs := es_docs st;
            logged := logged st
                      ++ [(ERROR, "Error indexing in Elasticsearch"%string)] |}))
  /\ (forall rest : list pipeline,
        exists st',
          ElasticsearchPipeline_process_item item st = (Return item, st')
          /\ run_pipelines (ElasticsearchPipeline :: rest) item st
             = run_pipelines rest item st').
Proof.
  assert (Hret : exists st',
             ElasticsearchPipeline_process_item item st = (Return item, st')).
  { unfold ElasticsearchPipeline_process_item, try_except, mbind, M_bind,
      es_index, log, mret, M_ret.
    destruct (es_up st); simpl; eexists; reflexivity. }
  split; [exact Hret|]. split.
  - intros Hdown.
    unfold ElasticsearchPipeline_process_item, try_except, mbind, M_bind,
      es_index, log, mret, M_ret.
    rewrite Hdown. simpl. rewrite Hdown. reflexivity.
  - intros rest. destruct Hret as [st' Hst']. exists st'. split; [exact Hst'|].
    simpl. unfold mbind, M_bind. rewrite Hst'. reflexivity.
Qed.

(** ** The chain the control surface installs *)

(** C10, as stated, fails: a record whose [article_id] is stored already is
    dropped by the document-store stage and is never passed to the
    search-index stage, so the index is left as it was. *)
Lemma duplicate_never_reaches_index :
  App.installed_chain = [MongoPipeline; ElasticsearchPipeline]
  /\ exists st',
       @run_pipelines example_builtins App.installed_chain second_copy
         stores_with_first_copy
       = (Raise (DropItem (Error_saving_item_to_MongoDB
                             (DropItem Duplicate_item_found))), st')
       /\ es_docs st' = es_docs stores_with_first_copy
       /\ ~ In (INFO, "Article indexed in Elasticsearch"%string) (logged st').
Proof.
  split; [reflexivity|]. eexists. split; [vm_compute; reflexivity|].
  split; [reflexivity|]. simpl. intros [Hx|[Hx|[]]]; discriminate.
Qed.

(** C10 (amended): the chain installed for a crawl started through the
    control surface is the document-store stage followed by the
    search-index stage, with neither Validation nor Cleaning in it; every
    yielded record is handed as it is to the document-store stage, and to
    the search-index stage when the document-store stage returns it (it is
    dropped there when its [article_id] is stored already or the store
    fails).  In particular a record with a new [article_id] is written as
    it is to both stores when both serve the call, whatever its fields. *)
Theorem installed_chain_is_the_two_sinks `{Builtins} (item : dict) (st : stores) :
  App.installed_chain = [MongoPipeline; ElasticsearchPipeline]
  /\ ~ In ValidationPipeline App.installed_chain
  /\ ~ In CleaningPipeline App.installed_chain
  /\ run_pipelines App.installed_chain item st
     = (item' ← MongoPipeline_process_item item;
        ElasticsearchPipeline_process_item item') st
  /\ (mongo_up st = true -> es_up st = true ->
      copies (get item "article_id") (articles st) = 0 ->
      exists st',
        run_pipelines App.installed_chain item st = (Return item, st')
        /\ articles st' = articles st ++ [to_document item]
        /\ es_docs st'
           = upsert (get (to_document item) "article_id") (to_document item)
               (es_docs st)).
Proof.
  split; [reflexivity|].
  split; [intros [Hx|[Hx|[]]]; discriminate|].
  split; [intros [Hx|[Hx|[]]]; discriminate|].
  assert (Hrun : run_pipelines App.installed_chain item st
                 = (item' ← MongoPipeline_process_item item;
                    ElasticsearchPipeline_process_item item') st).
  { change App.installed_chain with [MongoPipeline; ElasticsearchPipeline].
    simpl. unfold mbind, M_bind.
    destruct (MongoPipeline_process_item item st) as [[item'|e] st1]; [|reflexivity].
    destruct (ElasticsearchPipeline_process_item item' st1) as [[i2|e2] st2];
      reflexivity. }
  split; [exact Hrun|].
  intros Hm He Hnew. rewrite Hrun. unfold mbind at 1, M_bind at 1.
  rewrite (mongo_inserts_new item st Hm Hnew).
  unfold ElasticsearchPipeline_process_item, try_except, mbind, M_bind,
    es_index, log, mret, M_ret. simpl. rewrite He. simpl.
  eexists. split; [reflexivity|]. split; reflexivity.
Qed.

Lemma installed_chain_is_the_two_sinks_witness :
  App.installed_chain = [MongoPipeline; ElasticsearchPipeline]
  /\ exists st',
       @run_pipelines example_builtins App.installed_chain
         unvalidated_item empty_stores = (Return unvalidated_item, st')
       /\ articles st' = [@to_document example_builtins unvalidated_item]
       /\ es_docs st'
          = [(Some (VStr (lit "a2")), @to_document example_builtins unvalidated_item)].
Proof.
  destruct (@installed_chain_is_the_two_sinks example_builtins
              unvalidated_item empty_stores) as (Hc & _ & _ & _ & Hrun).
  split; [exact Hc|].
  destruct (Hrun eq_refl eq_refl eq_refl) as (st' & H1 & H2 & H3).
  exists st'. split; [exact H1|]. split; [exact H2|]. rewrite H3. reflexivity.
Defined.

(** ** Progress events *)

(** What the hook does when it is called: it adds one to
    [crawled_articles] and emits a "crawling" event. *)
Lemma hook_emits_crawling (item : dict) (m : App.CrawlerManager) :
  let '(m', e) := App.process_item item m in
  App.ev_status e = "crawling"%string
  /\ App.ev_crawled e = (App.crawled_articles m + 1)%Z
  /\ App.crawled_articles m' = (App.crawled_articles m + 1)%Z
  /\ App.total_articles m' = App.total_articles m.
Proof. simpl. auto. Qed.

(** The end of a crawl reports the counters as the manager holds them. *)
Lemma crawl_articles_events `{Builtins} (yielded : list dict) (st : stores)
  (m : App.CrawlerManager) :
  App.crawl_articles yielded st m
  = (snd (App.crawl_items yielded st),
     fst (App.crawl_completed m), [snd (App.crawl_completed m)]).
Proof.
  unfold App.crawl_articles.
  destruct (App.crawl_items yielded st) as [rs st']. reflexivity.
Qed.

(** C9: a run started on an idle manager, whatever the spider yields (three
    articles, say) and whatever the stores do, emits no "crawling" event:
    the hook that would emit them is a method of the spider, which the item
    pipeline never calls, so the only event of the run is the "completed"
    one, with progress 100 and [crawled] = 0; and nothing assigns
    [total_articles], so the event carries the total the manager had
    before, which is 0 for a manager as created.  The records themselves go
    through the installed chain, the document store and the search index. *)
Theorem run_emits_no_crawling_event `{Builtins} (account_name : str)
  (yielded : list dict) (st : stores) (m : App.CrawlerManager) :
  App.is_running m = false ->
  let '(answer, (st', m', events)) := App.run account_name yielded st m in
  answer = (true, "Crawling started"%string)
  /\ events
     = [{| App.ev_progress := App.Int 100; App.ev_crawled := 0;
           App.ev_total := App.total_articles m;
           App.ev_current_article := None;
           App.ev_status := "completed"; App.ev_error := None |}]
  /\ Forall (fun e => App.ev_status e <> "crawling"%string) events
  /\ App.crawled_articles m' = 0%Z
  /\ App.total_articles m' = App.total_articles m
  /\ App.is_running m' = false
  /\ st' = snd (App.crawl_items yielded st)
  /\ App.installed_chain = [MongoPipeline; ElasticsearchPipeline]
  /\ App.total_articles App.init = 0%Z.
Proof.
  intros Hidle. unfold App.run, App.start_crawling. rewrite Hidle.
  cbn [fst]. rewrite crawl_articles_events. cbn.
  repeat split.
  constructor; [discriminate | constructor].
Qed.

Lemma run_emits_no_crawling_event_witness :
  let '(answer, (st', m', events)) :=
    @App.run example_builtins (lit "account")
      [article 1; article 2; article 3] empty_stores App.init in
  answer = (true, "Crawling started"%string)
  /\ events
     = [{| App.ev_progress := App.Int 100; App.ev_crawled := 0;
           App.ev_total := 0;
           App.ev_current_article := None;
           App.ev_status := "completed"; App.ev_error := None |}]
  /\ Forall (fun e => App.ev_status e <> "crawling"%string) events
  /\ App.crawled_articles m' = 0%Z
  /\ App.total_articles m' = 0%Z
  /\ App.is_running m' = false
  /\ st' = snd (@App.crawl_items example_builtins
                  [article 1; article 2; article 3] empty_stores)
  /\ App.installed_chain = [MongoPipeline; ElasticsearchPipeline]
  /\ App.total_articles App.init = 0%Z.
Proof.
  exact (@run_emits_no_crawling_event example_builtins (lit "account")
           [article 1; article 2; article 3] empty_stores App.init eq_refl).
Defined.

(** In that run of three articles the three records are stored and
    indexed, and yet no progress is reported for them. *)
Lemma three_articles_stored_unreported :
  let '(_, (st', _, events)) :=
    @App.run example_builtins (lit "account")
      [article 1; article 2; article 3] empty_stores App.init in
  length (articles st') = 3 /\ length (es_docs st') = 3
  /\ length events = 1.
Proof. vm_compute. auto. Qed.

(** ** The classifier *)

Lemma startswith_spec (p s : str) :
  startswith p s = true <-> exists b, s = p ++ b.
Proof.
  revert s. induction p as [|a p IH]; intros s; simpl.
  - split; [intros _; exists s; reflexivity | reflexivity].
  - destruct s as [|c s].
    + split; [discriminate | intros [b Hb]; discriminate].
    + rewrite andb_true_iff, N.eqb_eq, IH. split.
      * intros [-> [b ->]]. exists b. reflexivity.
      * intros [b Hb]. injection Hb as -> ->. split; [reflexivity | eauto].
Qed.

Lemma contains_spec (p s : str) : contains p s = true <-> occurs p s.
Proof.
  unfold occurs. induction s as [|c s IH].
  - simpl. rewrite orb_false_r, startswith_spec. split.
    + intros [b Hb]. exists [], b. exact Hb.
    + intros [a [b Hab]]. destruct a; [exists b; exact Hab | discriminate].
  - cbn [contains]. rewrite orb_true_iff, IH, startswith_spec. split.
    + intros [[b Hb]|[a [b Hab]]].
      * exists [], b. exact Hb.
      * exists (c :: a), b. rewrite Hab. reflexivity.
    + intros [a [b Hab]]. destruct a as [|c' a].
      * left. exists b. exact Hab.
      * right. injection Hab as _ ->. eauto.
Qed.

Section ClassifierFacts.
Context `{Builtins}.

Lemma any_keyword_true (text : str) (keywords : list str) :
  any_keyword text keywords = true
  <-> exists keyword, In keyword keywords /\ occurs keyword text.
Proof.
  induction keywords as [|k ks IH]; simpl.
  - split; [discriminate | intros [k [[] _]]].
  - destruct (contains k text) eqn:Hk.
    + split; [|reflexivity]. intros _. exists k.
      split; [left; reflexivity | apply contains_spec; exact Hk].
    + rewrite IH. split.
      * intros [k' [Hin Hocc]]. exists k'. auto.
      * intros [k' [[->|Hin] Hocc]]; [|eauto].
        apply contains_spec in Hocc. congruence.
Qed.

Lemma any_keyword_false (text : str) (keywords : list str) :
  any_keyword text keywords = false <-> none_occurs text keywords.
Proof.
  unfold none_occurs. split.
  - intros Hf k Hin Hocc.
    assert (any_keyword text keywords = true) by (apply any_keyword_true; eauto).
    congruence.
  - intros Hnone. destruct (any_keyword text keywords) eqn:Ha; [|reflexivity].
    apply any_keyword_true in Ha. destruct Ha as [k [Hin Hocc]].
    destruct (Hnone k Hin Hocc).
Qed.

Lemma first_category_first (text : str) (before after : list (str * list str))
  (category : str) (keywords : list str) :
  (forall c ks, In (c, ks) before -> none_occurs text ks) ->
  (exists keyword, In keyword keywords /\ occurs keyword text) ->
  first_category text (before ++ (category, keywords) :: after) = category.
Proof.
  intros Hbefore Hhere. induction before as [|[c ks] before IH]; simpl.
  - apply any_keyword_true in Hhere. rewrite Hhere. reflexivity.
  - assert (Hks : any_keyword text ks = false).
    { apply any_keyword_false. apply (Hbefore c). left. reflexivity. }
    rewrite Hks. apply IH. intros c' ks' Hin. apply (Hbefore c'). right. exact Hin.
Qed.

Lemma first_category_default (text : str) (table : list (str * list str)) :
  (forall c ks, In (c, ks) table -> none_occurs text ks) ->
  first_category text table = default_category.
Proof.
  intros Hnone. induction table as [|[c ks] table IH]; simpl; [reflexivity|].
  assert (Hks : any_keyword text ks = false).
  { apply any_keyword_false. apply (Hnone c). left. reflexivity. }
  rewrite Hks. apply IH. intros c' ks' Hin. apply (Hnone c'). right. exact Hin.
Qed.

End ClassifierFacts.

(** C5, as stated, fails: when no keyword occurs, the category returned is
    the table's own default, which is not the string "other". *)
Lemma default_category_is_not_other :
  @categorize_article example_builtins [] [] = lit "其他"
  /\ lit "其他" <> lit "other".
Proof. split; [vm_compute; reflexivity | vm_compute; discriminate]. Qed.

(** C5 (amended): for every title and description, with [text] the
    lower-cased [title + " " + description], the classifier returns the
    first category of the table, in the order it is written, one of whose
    keywords occurs in [text], and the default category, which is "其他",
    when no keyword of the table occurs; and the title "工具开发技巧" with
    an empty description is classified "技术" (lower-casing leaves that text
    as it is). *)
Theorem categorize_article_first_match `{Builtins} (title description : str) :
  let text := str_lower (title ++ lit " " ++ description) in
  (forall before category keywords after,
      categories = before ++ (category, keywords) :: after ->
      (forall c ks, In (c, ks) before -> none_occurs text ks) ->
      (exists keyword, In keyword keywords /\ occurs keyword text) ->
      categorize_article title description = category)
  /\ ((forall c ks, In (c, ks) categories -> none_occurs text ks) ->
      categorize_article title description = default_category)
  /\ default_category = lit "其他"
  /\ (str_lower (lit "工具开发技巧" ++ lit " " ++ []) = lit "工具开发技巧 " ->
      categorize_article (lit "工具开发技巧") [] = lit "技术").
Proof.
  intros text. split; [|split; [|split]].
  - intros before category keywords after Htable Hbefore Hhere.
    unfold categorize_article. fold text. rewrite Htable.
    apply first_category_first; assumption.
  - intros Hnone. unfold categorize_article. fold text.
    apply first_category_default. exact Hnone.
  - reflexivity.
  - intros Hlow. unfold categorize_article. rewrite Hlow.
    vm_compute. reflexivity.
Qed.

Lemma categorize_article_first_match_witness :
  @categorize_article example_builtins (lit "工具开发技巧") [] = lit "技术"
  /\ @categorize_article example_builtins (lit "生活中的编程故事") (lit "ABC")
     = lit "技术".
Proof.
  split.
  - apply (@categorize_article_first_match example_builtins
             (lit "工具开发技巧") []).
    vm_compute. reflexivity.
  - apply (proj1 (@categorize_article_first_match example_builtins
                    (lit "生活中的编程故事") (lit "ABC"))
             [] (lit "技术")
             (map lit ["技术"; "编程"; "开发"; "代码"; "算法"; "框架"; "工具"]%string)
             (tl categories)).
    + reflexivity.
    + intros c ks [].
    + exists (lit "编程"). split; [vm_compute; auto|].
      exists (lit "生活中的"), (lit "故事 abc"). vm_compute. reflexivity.
Defined.

(** ** Content extraction *)

(** C8, as stated, fails: the content request of a listing entry carries no
    errback, so when its download fails no callback runs and the record of
    the entry is not yielded. *)
Lemma failed_fetch_yields_nothing :
  In (YieldRequest content_request_example)
     (@parse_article_list example_builtins (lit "account") 0 fake_id_example 0
        (page_of [1]%Z 1))
  /\ callback content_request_example = parse_article_content_cb
  /\ errback content_request_example = None
  /\ @on_content example_builtins 0 content_request_example DownloadFailed = [].
Proof. vm_compute. auto. Qed.

(** C8 (amended): for every content request whose page is downloaded, the
    record built from the listing entry is yielded whatever the extraction
    does: exactly one item is yielded, it agrees with the listing record on
    every field but [content], [images], [videos] and [crawl_time]; when
    the response has no selectors (the extraction raises) it is the listing
    record itself, and when no content element is found it is the listing
    record with a new [crawl_time]. *)
Theorem extraction_failure_still_yields `{Builtins} (now : Z) (rq : request)
  (item : dict) (r : response) :
  req_meta rq = ItemMeta item ->
  exists item',
    on_content now rq (Downloaded r) = [YieldItem item']
    /\ (forall k : string,
          k <> "content"%string -> k <> "images"%string ->
          k <> "videos"%string -> k <> "crawl_time"%string ->
          item' !! k = item !! k)
    /\ (r = BinaryResponse -> item' = item)
    /\ (forall p, r = TextResponse p -> content_html p = [] ->
        item' = <["crawl_time" := VTime now]> item).
Proof.
  intros Hmeta. unfold on_content. rewrite Hmeta.
  destruct r as [p|]; simpl.
  - eexists. split; [reflexivity|]. split; [|split].
    + intros k Hc Hi Hv Ht. rewrite lookup_insert_ne by congruence.
      destruct (content_html p); [reflexivity|].
      rewrite !lookup_insert_ne by congruence. reflexivity.
    + discriminate.
    + intros p' Hp Hempty. injection Hp as <-. rewrite Hempty. reflexivity.
  - exists item. split; [reflexivity|]. split; [reflexivity|].
    split; [reflexivity | discriminate].
Qed.

Lemma extraction_failure_still_yields_witness :
  exists item',
    @on_content example_builtins 7 plain_content_request
      (Downloaded BinaryResponse)
    = [YieldItem item']
    /\ item' = article 1.
Proof.
  destruct (@extraction_failure_still_yields example_builtins 7
              plain_content_request (article 1) BinaryResponse eq_refl)
    as (item' & Hrun & _ & Hsame & _).
  exists item'. split; [exact Hrun | exact (Hsame eq_refl)].
Defined.

(** ** Pagination *)

Section PaginationFacts.
Context `{Builtins}.
Variable account_name : str.
Variable now : Z.

Lemma content_requests_content_only (fake_id : value) (articles : list dict) :
  content_only (fst (content_requests account_name now fake_id articles)).
Proof.
  unfold content_only. induction articles as [|a articles IH];
    cbn [content_requests].
  - constructor.
  - destruct (parse_article_data account_name now a fake_id) as [item|];
      [|exact IH].
    destruct (get item "url") as [| | |u| |]; try (cbn [fst]; constructor).
    destruct (request_url_ok (VStr u)); [|cbn [fst]; constructor].
    destruct (content_requests account_name now fake_id articles)
      as [outs finished]. cbn [fst] in *.
    constructor; [|exact IH]. eexists. split; reflexivity.
Qed.

Lemma next_listing_content_only (outs : list output) :
  content_only outs -> next_listing outs = None.
Proof.
  unfold next_listing. intros Hall.
  destruct (last outs) as [o|] eqn:Hlast; [|reflexivity].
  apply last_Some in Hlast. destruct Hlast as [l' ->].
  apply Forall_app in Hall. destruct Hall as [_ Hlast].
  inversion Hlast as [|? ? [rq [-> Hcb]] _]. rewrite Hcb. reflexivity.
Qed.

Lemma next_listing_snoc (outs : list output) (fake_id : value) (begin : Z) :
  next_listing (outs ++ [YieldRequest (create_article_request fake_id begin)])
  = Some (create_article_request fake_id begin).
Proof. unfold next_listing. rewrite last_snoc. reflexivity. Qed.

Lemma next_listing_parse (fake_id : value) (begin : Z) (data : listing) :
  (more_pages account_name now begin data fake_id
   /\ next_listing (parse_article_list account_name now fake_id begin (Json data))
      = Some (create_article_request fake_id
                (begin + Z.of_nat (length (app_msg_list data)))))
  \/ (~ more_pages account_name now begin data fake_id
      /\ next_listing (parse_article_list account_name now fake_id begin (Json data))
         = None).
Proof.
  unfold more_pages, parse_article_list.
  pose proof (content_requests_content_only fake_id (app_msg_list data)) as Hc.
  destruct (truthy (success data)); simpl;
    [|right; split; [intros [Hx _]; discriminate | reflexivity]].
  destruct (app_msg_list data) as [|a l] eqn:Hl;
    [right; split; [intros (_ & Hx & _); congruence | reflexivity]|].
  rewrite <- Hl in *.
  destruct (content_requests account_name now fake_id (app_msg_list data))
    as [outs finished]. simpl in Hc.
  destruct finished; simpl;
    [|right; split; [intros (_ & _ & Hx & _); discriminate
                    | apply next_listing_content_only; exact Hc]].
  destruct (int_lt _ _) as [[|]|] eqn:Hlt.
  - left. split; [|apply next_listing_snoc].
    repeat split; try reflexivity. rewrite Hl. discriminate.
  - right. split; [intros (_ & _ & _ & Hx); discriminate
                  | apply next_listing_content_only; exact Hc].
  - right. split; [intros (_ & _ & _ & Hx); discriminate
                  | apply next_listing_content_only; exact Hc].
Qed.

Lemma next_listing_not_json (fake_id : value) (begin : Z) :
  next_listing (parse_article_list account_name now fake_id begin NotJson) = None.
Proof. reflexivity. Qed.

Lemma int_lt_mono (n T : Z) (v : value) :
  int_lt n v = Some true -> int_lt T v <> Some true -> (n < T)%Z.
Proof.
  destruct v as [|b|m| | |]; simpl; try discriminate.
  - intros Hn HT. injection Hn as Hn. apply Z.ltb_lt in Hn.
    destruct (T <? (if b then 1 else 0))%Z eqn:Ht; [congruence|].
    apply Z.ltb_ge in Ht. lia.
  - intros Hn HT. injection Hn as Hn. apply Z.ltb_lt in Hn.
    destruct (T <? m)%Z eqn:Ht; [congruence|].
    apply Z.ltb_ge in Ht. lia.
Qed.

Lemma crawl_listing_step (fuel : nat) (server : Z -> download listing_body)
  (fake_id : value) (begin : Z) :
  crawl_listing account_name now (S fuel) server
    (create_article_request fake_id begin)
  = match next_listing (page_outputs account_name now fake_id begin (server begin)) with
    | Some rq' =>
      cons (begin, page_outputs account_name now fake_id begin (server begin))
        <$> crawl_listing account_name now fuel server rq'
    | None => Some [(begin, page_outputs account_name now fake_id begin (server begin))]
    end.
Proof. reflexivity. Qed.

Lemma next_of_download (fake_id : value) (begin : Z) (d : download listing_body) :
  next_listing (page_outputs account_name now fake_id begin d) = None
  \/ exists data,
       d = Downloaded (Json data)
       /\ more_pages account_name now begin data fake_id
       /\ next_listing (page_outputs account_name now fake_id begin d)
          = Some (create_article_request fake_id
                    (begin + Z.of_nat (length (app_msg_list data)))).
Proof.
  unfold page_outputs, on_listing. cbn [req_meta create_article_request].
  destruct d as [[|data]|]; [left; reflexivity| |left; reflexivity].
  destruct (next_listing_parse fake_id begin data) as [[Hm Hn]|[_ Hn]].
  - right. exists data. auto.
  - left. exact Hn.
Qed.

Lemma crawl_listing_terminates (server : Z -> download listing_body) (T : Z)
  (fake_id : value) (fuel : nat) (begin : Z) :
  totals_at_most server T ->
  (T - begin <= Z.of_nat fuel)%Z ->
  exists pages,
    crawl_listing account_name now (S fuel) server
      (create_article_request fake_id begin) = Some pages
    /\ (length pages <= S fuel)%nat
    /\ (exists outs rest, pages = (begin, outs) :: rest)
    /\ advances server pages.
Proof.
  intros Htot. revert begin.
  induction fuel as [|fuel IH]; intros begin Hfuel; rewrite crawl_listing_step;
    destruct (next_of_download fake_id begin (server begin))
      as [Hnone|(data & Hs & (_ & Hne & _ & Hlt) & Hnext)];
    try (rewrite Hnone; eexists; split; [reflexivity|]; simpl;
         split; [lia|]; split; eauto);
    pose proof (int_lt_mono _ _ _ Hlt (Htot _ _ Hs)) as Hb.
  - lia.
  - rewrite Hnext.
    assert (Hlen : (0 < length (app_msg_list data))%nat)
      by (destruct (app_msg_list data); [congruence | simpl; lia]).
    destruct (IH (begin + Z.of_nat (length (app_msg_list data)))%Z)
      as (pages & Hrun & Hlenp & (outs & rest & Hpages) & Hadv); [lia|].
    rewrite Hrun. simpl. eexists. split; [reflexivity|]. simpl.
    split; [lia|]. split; [eauto|].
    rewrite Hpages. rewrite Hpages in Hadv.
    split; [|exact Hadv]. exists data. auto.
Qed.

Lemma parse_article_data_url (article_data : dict) (fake_id : value)
  (item : dict) :
  parse_article_data account_name now article_data fake_id = Some item ->
  get item "url" = get_or article_data "link" (VStr []).
Proof.
  unfold parse_article_data. intros Hitem.
  destruct (strip_value (get_or article_data "title" (VStr []))) as [t|];
    [|discriminate].
  destruct (strip_value (get_or article_data "digest" (VStr []))) as [d|];
    [|discriminate].
  destruct (parse_timestamp now (get_or article_data "create_time" (VInt 0)))
    as [pt|]; [|discriminate].
  cbn [mbind option_bind] in Hitem. injection Hitem as <-.
  unfold get. rewrite !lookup_insert_ne by discriminate.
  rewrite lookup_insert_eq. reflexivity.
Qed.

(** Entries whose [link] a request accepts all yield their requests. *)
Lemma content_requests_finished (fake_id : value) (articles : list dict) :
  Forall (fun a => exists u, get_or a "link" (VStr []) = VStr u
                             /\ request_url_ok (VStr u) = true) articles ->
  snd (content_requests account_name now fake_id articles) = true.
Proof.
  induction 1 as [|a articles [u [Hlink Hok]] _ IH]; cbn [content_requests];
    [reflexivity|].
  destruct (parse_article_data account_name now a fake_id) as [item|] eqn:Hitem;
    [|exact IH].
  rewrite (parse_article_data_url _ _ _ Hitem), Hlink, Hok.
  destruct (content_requests account_name now fake_id articles). exact IH.
Qed.

(** The loop over the entries runs to its end exactly when the link of
    every entry that gives an item is one [scrapy.Request] accepts. *)
Lemma content_requests_finished_iff (fake_id : value) (articles : list dict) :
  snd (content_requests account_name now fake_id articles) = true
  <-> Forall (fun a => forall item,
                parse_article_data account_name now a fake_id = Some item ->
                request_url_ok (get item "url") = true) articles.
Proof.
  induction articles as [|a articles IH]; cbn [content_requests].
  - split; [constructor | reflexivity].
  - rewrite List.Forall_cons_iff.
    destruct (parse_article_data account_name now a fake_id) as [item|].
    + destruct (request_url_ok (get item "url")) eqn:Hok.
      * destruct (get item "url") as [| | |u| |] eqn:Hu; try discriminate Hok.
        rewrite Hok.
        destruct (content_requests account_name now fake_id articles)
          as [outs finished]. cbn [snd] in *.
        rewrite IH. split; [|tauto].
        intros Hall. split; [|exact Hall].
        intros item' Hitem. injection Hitem as <-. rewrite Hu. exact Hok.
      * assert (Hsnd : snd (match get item "url" with
                            | VStr u =>
                              if request_url_ok (VStr u)
                              then
                                let '(outs, finished) :=
                                  content_requests account_name now fake_id
                                    articles in
                                (YieldRequest
                                   {| url := u;
                                      callback := parse_article_content_cb;
                                      errback := None;
                                      req_meta := ItemMeta item |} :: outs,
                                 finished)
                              else ([], false)
                            | _ => ([], false)
                            end) = false).
        { destruct (get item "url") as [| | |u| |]; try reflexivity.
          rewrite Hok. reflexivity. }
        rewrite Hsnd. split; [discriminate|].
        intros [Hhead _]. rewrite (Hhead item eq_refl) in Hok. discriminate.
    + rewrite IH. split; [|tauto].
      intros Hall. split; [discriminate | exact Hall].
Qed.

End PaginationFacts.

(** C4 (amended): a listing response requests a next page exactly when it
    is a successful listing with at least one entry, every entry yielded its
    content request (none has a link that [scrapy.Request] refuses, which
    ends the callback where it stands), and [begin] plus the number of
    entries returned is below the total it reports; the next request's
    [begin] is then the previous [begin] plus the number of entries
    returned.  Against a source none of whose pages reports a total above
    [T], the chain of listing requests ends within [T - begin + 1] pages,
    each offset being the one before plus the entries returned there; and
    for seven articles served five at a time, with a link the request
    accepts, the requests use [begin] = 0 and then [begin] = 5. *)
Theorem pagination_cursor `{Builtins} (account_name : str) (now : Z)
  (fake_id : value) :
  (forall (begin : Z) (data : listing) (rq : request),
      next_listing (parse_article_list account_name now fake_id begin (Json data))
      = Some rq
      <-> (rq = create_article_request fake_id
                  (begin + Z.of_nat (length (app_msg_list data)))
           /\ truthy (success data) = true
           /\ app_msg_list data <> []
           /\ snd (content_requests account_name now fake_id (app_msg_list data))
              = true
           /\ int_lt (begin + Z.of_nat (length (app_msg_list data)))
                (default (VInt 0) (total_page_cnt data)) = Some true))
  /\ (forall articles : list dict,
        snd (content_requests account_name now fake_id articles) = true
        <-> Forall (fun a => forall item,
                      parse_article_data account_name now a fake_id = Some item ->
                      request_url_ok (get item "url") = true) articles)
  /\ (forall (begin : Z) (data : listing),
        begin_of (create_article_request fake_id
                    (begin + Z.of_nat (length (app_msg_list data))))
        = (begin + Z.of_nat (length (app_msg_list data)))%Z)
  /\ (forall (server : Z -> download listing_body) (T begin : Z),
        totals_at_most server T ->
        exists pages,
          crawl_listing account_name now (S (Z.to_nat (T - begin))) server
            (create_article_request fake_id begin) = Some pages
          /\ (length pages <= S (Z.to_nat (T - begin)))%nat
          /\ advances server pages)
  /\ (request_url_ok (VStr (lit "https://mp.weixin.qq.com/s/x")) = true ->
      option_map (map fst)
        (crawl_listing account_name now 3 seven_articles
           (create_article_request fake_id 0)) = Some [0; 5]%Z).
Proof.
  split; [|split; [|split; [|split]]].
  - intros begin data rq.
    destruct (next_listing_parse account_name now fake_id begin data)
      as [[Hm Hn]|[Hm Hn]]; rewrite Hn; unfold more_pages in Hm.
    + split.
      * intros Heq. injection Heq as <-. tauto.
      * intros [-> _]. reflexivity.
    + split; [discriminate|]. intros [_ Hx]. tauto.
  - intros articles. apply content_requests_finished_iff.
  - reflexivity.
  - intros server T begin Htot.
    destruct (crawl_listing_terminates account_name now server T fake_id
                (Z.to_nat (T - begin)) begin Htot) as (pages & Hrun & Hlen & _ & Hadv);
      [lia|].
    exists pages. auto.
  - intros Hlink.
    assert (Hok : forall ids,
               snd (content_requests account_name now fake_id (entry <$> ids)) = true).
    { intros ids. apply content_requests_finished.
      apply Forall_fmap. apply Forall_forall. intros n _.
      exists (lit "https://mp.weixin.qq.com/s/x").
      split; [reflexivity | exact Hlink]. }
    rewrite crawl_listing_step.
    destruct (next_of_download account_name now fake_id 0 (seven_articles 0))
      as [Hnone|(data & Hs & _ & Hnext)].
    { exfalso. revert Hnone. unfold page_outputs, on_listing.
      cbn [req_meta create_article_request].
      change (seven_articles 0) with (Downloaded (page_of [1; 2; 3; 4; 5]%Z 7)).
      cbv iota.
      destruct (next_listing_parse account_name now fake_id 0
                  {| success := VBool true;
                     app_msg_list := entry <$> [1; 2; 3; 4; 5]%Z;
                     total_page_cnt := Some (VInt 7) |}) as [[_ Hn]|[Hm _]].
      - unfold page_of. rewrite Hn. discriminate.
      - exfalso. apply Hm. unfold more_pages. cbn [success app_msg_list].
        rewrite Hok. repeat split; discriminate. }
    rewrite Hnext.
    change (seven_articles 0) with (Downloaded (page_of [1; 2; 3; 4; 5]%Z 7)) in Hs.
    injection Hs as <-. cbn [app_msg_list length fmap list_fmap].
    change (0 + Z.of_nat 5)%Z with 5%Z.
    rewrite crawl_listing_step.
    destruct (next_of_download account_name now fake_id 5 (seven_articles 5))
      as [Hnone|(data & Hs & (_ & _ & _ & Hlt) & _)].
    + rewrite Hnone. reflexivity.
    + change (seven_articles 5) with (Downloaded (page_of [6; 7]%Z 7)) in Hs.
      injection Hs as <-. discriminate Hlt.
Qed.

Lemma pagination_cursor_witness :
  (exists pages,
      @crawl_listing example_builtins (lit "account") 0 (S (Z.to_nat (7 - 0)))
        seven_articles (@create_article_request example_builtins fake_id_example 0)
      = Some pages
      /\ (length pages <= S (Z.to_nat (7 - 0)))%nat
      /\ advances seven_articles pages)
  /\ option_map (map fst)
       (@crawl_listing example_builtins (lit "account") 0 3 seven_articles
          (@create_article_request example_builtins fake_id_example 0))
     = Some [0; 5]%Z.
Proof.
  split.
  - apply (proj1 (proj2 (proj2 (proj2 (@pagination_cursor example_builtins
                                         (lit "account") 0 fake_id_example))))
             seven_articles 7%Z 0%Z).
    intros begin data Hs. unfold seven_articles in Hs.
    destruct (begin =? 0)%Z; [injection Hs as <-; discriminate|].
    destruct (begin =? 5)%Z; injection Hs as <-; discriminate.
  - apply (proj2 (proj2 (proj2 (proj2 (@pagination_cursor example_builtins
                                         (lit "account") 0 fake_id_example))))).
    reflexivity.
Defined.

(** An entry whose link has a scheme but does not parse (its port is no
    number) makes [scrapy.Request] raise: the callback ends there, with no
    request for the entry and none for the next page. *)
Lemma bad_port_stops_the_page :
  contains (lit "://") (lit "https://mp.weixin.qq.com:port/s") = true
  /\ @request_url_ok example_builtins
       (VStr (lit "https://mp.weixin.qq.com:port/s")) = false
  /\ @parse_article_list example_builtins (lit "account") 0 fake_id_example 0
       bad_port_page = [].
Proof. split; [|split]; vm_compute; reflexivity. Qed.

(** C4, as stated, fails: a listing response with no entries requests no
    next page, although its offset plus the number of entries returned is
    below the total it reports. *)
Lemma empty_page_requests_nothing :
  (0 + Z.of_nat (length (@nil dict)) < 7)%Z
  /\ @parse_article_list example_builtins (lit "account") 0 fake_id_example 0
       (page_of [] 7) = [].
Proof. split; [simpl; lia | reflexivity]. Qed.

(** ** The normalizer *)

Section ReFacts.
Variable ic : bool.

(** Any fuel above the length of the text gives the same result. *)
Lemma sub_loop_fuel (r : regex) (repl : str) (f1 f2 : nat) (s : str) :
  length s < f1 -> length s < f2 ->
  sub_loop ic f1 r repl s = sub_loop ic f2 r repl s.
Proof.
  revert f2 s. induction f1 as [|f1 IH]; intros f2 s H1 H2; [lia|].
  destruct f2 as [|f2]; [lia|]. cbn [sub_loop].
  destruct (match_here ic r s) as [rest|].
  - destruct (length rest <? length s) eqn:Hlt.
    + apply Nat.ltb_lt in Hlt. f_equal. apply IH; lia.
    + destruct s as [|c s]; [reflexivity|]. simpl in H1, H2.
      do 2 f_equal. apply IH; lia.
  - destruct s as [|c s]; [reflexivity|]. simpl in H1, H2.
    f_equal. apply IH; lia.
Qed.

(** [sub] unfolded at the first position of the text. *)
Lemma sub_unfold (r : regex) (repl s : str) :
  sub ic r repl s =
  match match_here ic r s with
  | Some rest =>
    if (length rest <? length s)%nat then repl ++ sub ic r repl rest
    else match s with
         | c :: s' => repl ++ c :: sub ic r repl s'
         | [] => repl
         end
  | None =>
    match s with
    | c :: s' => c :: sub ic r repl s'
    | [] => []
    end
  end.
Proof.
  unfold sub. cbn [sub_loop].
  destruct (match_here ic r s) as [rest|].
  - destruct (length rest <? length s) eqn:Hlt.
    + apply Nat.ltb_lt in Hlt.
      rewrite (sub_loop_fuel r repl (length s) (S (length rest)) rest) by lia.
      reflexivity.
    + destruct s as [|c s]; [reflexivity|]. reflexivity.
  - destruct s as [|c s]; reflexivity.
Qed.

End ReFacts.

(** *** Blank lines and trimming *)

Lemma nl_k_cons (c : N) (s : str) :
  nl_k (c :: s) = if (c =? LF)%N then Some s else None.
Proof. reflexivity. Qed.

Lemma isspace_LF : isspace LF = true.
Proof. reflexivity. Qed.

(** [\s*\n] fails exactly when no newline is among the leading whitespace. *)
Lemma star_none (s : str) :
  greedy_star false Space nl_k s = None <-> nl_ahead s = false.
Proof.
  induction s as [|c s IH]; [simpl; tauto|].
  cbn [greedy_star nl_ahead accepts]. rewrite nl_k_cons.
  destruct (c =? LF)%N eqn:Hc.
  - apply N.eqb_eq in Hc. subst c. rewrite isspace_LF.
    destruct (greedy_star false Space nl_k s); split; discriminate.
  - destruct (isspace c); [|tauto].
    destruct (greedy_star false Space nl_k s); [|exact IH].
    split; [discriminate|]. intros Hx. apply IH in Hx. discriminate.
Qed.

(** What [\s*\n] leaves has no newline among its leading whitespace. *)
Lemma star_some (s rest : str) :
  greedy_star false Space nl_k s = Some rest ->
  nl_ahead rest = false /\ length rest < length s /\ nl_ahead s = true.
Proof.
  revert rest. induction s as [|c s IH]; intros rest; [discriminate|].
  cbn [greedy_star nl_ahead accepts]. rewrite nl_k_cons.
  destruct (c =? LF)%N eqn:Hc.
  - apply N.eqb_eq in Hc. subst c. rewrite isspace_LF.
    destruct (greedy_star false Space nl_k s) as [r|] eqn:Hg.
    + intros Hr. injection Hr as <-. destruct (IH r eq_refl) as (H1 & H2 & _).
      simpl. split; [exact H1|]. split; [lia | reflexivity].
    + intros Hr. injection Hr as <-. apply star_none in Hg.
      simpl. split; [exact Hg|]. split; [lia | reflexivity].
  - destruct (isspace c); [|discriminate].
    destruct (greedy_star false Space nl_k s) as [r|] eqn:Hg; [|discriminate].
    intros Hr. injection Hr as <-. destruct (IH r eq_refl) as (H1 & H2 & H3).
    simpl. split; [exact H1|]. split; [lia | exact H3].
Qed.

Lemma star_pair (s : str) :
  nl_ahead s = false -> greedy_star false Space nl_k (LF :: s) = Some s.
Proof.
  intros Hs. apply star_none in Hs. cbn [greedy_star accepts].
  rewrite isspace_LF, Hs. reflexivity.
Qed.

Lemma blank_match (c : N) (s : str) :
  match_here false blank_lines_re (c :: s)
  = if (c =? LF)%N then greedy_star false Space nl_k s else None.
Proof. reflexivity. Qed.

(** The three cases of [collapse] at the first character. *)
Lemma collapse_other (c : N) (s : str) :
  c <> LF -> collapse (c :: s) = c :: collapse s.
Proof.
  intros Hc. unfold collapse. rewrite sub_unfold, blank_match.
  apply N.eqb_neq in Hc. rewrite Hc. reflexivity.
Qed.

Lemma collapse_nl_alone (s : str) :
  nl_ahead s = false -> collapse (LF :: s) = LF :: collapse s.
Proof.
  intros Hs. unfold collapse. rewrite sub_unfold, blank_match.
  apply star_none in Hs. rewrite N.eqb_refl, Hs. reflexivity.
Qed.

Lemma collapse_nl_run (s rest : str) :
  greedy_star false Space nl_k s = Some rest ->
  collapse (LF :: s) = LF :: LF :: collapse rest.
Proof.
  intros Hs. unfold collapse. rewrite sub_unfold, blank_match.
  rewrite N.eqb_refl, Hs. destruct (star_some _ _ Hs) as (_ & Hlen & _).
  replace (length rest <? length (LF :: s)) with true; [reflexivity|].
  symmetry. apply Nat.ltb_lt. simpl. lia.
Qed.

Lemma collapse_nil : collapse [] = [].
Proof. reflexivity. Qed.

(** Collapsing keeps whether a newline is among the leading whitespace. *)
Lemma nl_ahead_collapse (s : str) : nl_ahead (collapse s) = nl_ahead s.
Proof.
  induction s as [|c s IH]; [reflexivity|].
  destruct (N.eq_dec c LF) as [->|Hc].
  - destruct (greedy_star false Space nl_k s) as [rest|] eqn:Hs.
    + rewrite (collapse_nl_run _ _ Hs). reflexivity.
    + apply star_none in Hs. rewrite (collapse_nl_alone _ Hs). reflexivity.
  - rewrite (collapse_other _ _ Hc). simpl.
    apply N.eqb_neq in Hc. rewrite Hc, IH. reflexivity.
Qed.

Lemma after_nl_no_nl (s : str) : nl_ahead s = false -> after_nl s = s.
Proof.
  destruct s as [|c s]; [reflexivity|]. simpl.
  destruct (c =? LF)%N; [discriminate | reflexivity].
Qed.

(** The result of [collapse] is collapsed, and [collapse] leaves collapsed
    text as it is. *)
Lemma collapse_collapsed (s : str) : collapsed (collapse s).
Proof.
  remember (length s) as n eqn:Hn. revert s Hn.
  induction n as [n IH] using lt_wf_ind. intros s Hn.
  destruct s as [|c s]; [exact I|].
  destruct (N.eq_dec c LF) as [->|Hc].
  - destruct (greedy_star false Space nl_k s) as [rest|] eqn:Hs.
    + rewrite (collapse_nl_run _ _ Hs).
      destruct (star_some _ _ Hs) as (Hrest & Hlen & _).
      assert (Hcr : nl_ahead (collapse rest) = false)
        by (rewrite nl_ahead_collapse; exact Hrest).
      cbn [collapsed after_nl]. rewrite N.eqb_refl.
      split; [intros _; exact Hcr|].
      split; [intros _; rewrite after_nl_no_nl; exact Hcr|].
      apply (IH (length rest)); [subst n; simpl; lia | reflexivity].
    + apply star_none in Hs. rewrite (collapse_nl_alone _ Hs).
      assert (Hcs : nl_ahead (collapse s) = false)
        by (rewrite nl_ahead_collapse; exact Hs).
      cbn [collapsed]. split; [intros _; rewrite after_nl_no_nl; exact Hcs|].
      apply (IH (length s)); [subst n; simpl; lia | reflexivity].
  - rewrite (collapse_other _ _ Hc). cbn [collapsed].
    split; [intros Hx; contradiction|].
    apply (IH (length s)); [subst n; simpl; lia | reflexivity].
Qed.

Lemma collapsed_fixed (s : str) : collapsed s -> collapse s = s.
Proof.
  remember (length s) as n eqn:Hn. revert s Hn.
  induction n as [n IH] using lt_wf_ind. intros s Hn Hs.
  destruct s as [|c s]; [reflexivity|]. destruct Hs as [Hhead Htail].
  destruct (N.eq_dec c LF) as [->|Hc].
  - specialize (Hhead eq_refl).
    destruct (nl_ahead s) eqn:Hahead.
    + destruct s as [|d s]; [discriminate|]. simpl in Hhead, Hahead.
      destruct (d =? LF)%N eqn:Hd.
      * apply N.eqb_eq in Hd. subst d.
        rewrite (collapse_nl_run (LF :: s) s (star_pair s Hhead)).
        do 2 f_equal. destruct Htail as [_ Htail].
        apply (IH (length s)); [subst n; simpl; lia | reflexivity | exact Htail].
      * simpl in Hhead. rewrite Hd in Hhead. congruence.
    + rewrite (collapse_nl_alone _ Hahead). f_equal.
      apply (IH (length s)); [subst n; simpl; lia | reflexivity | exact Htail].
  - rewrite (collapse_other _ _ Hc). f_equal.
    apply (IH (length s)); [subst n; simpl; lia | reflexivity | exact Htail].
Qed.

(** Collapsed text stays collapsed when cut at either end, so when
    trimmed. *)
Lemma collapsed_suffix (a b : str) : collapsed (a ++ b) -> collapsed b.
Proof.
  induction a as [|c a IH]; [exact (fun H => H)|].
  intros [_ H]. exact (IH H).
Qed.

Lemma nl_ahead_prefix (a b : str) :
  nl_ahead (a ++ b) = false -> nl_ahead a = false.
Proof.
  induction a as [|c a IH]; [reflexivity|]. simpl.
  destruct (c =? LF)%N; [exact (fun H => H)|].
  destruct (isspace c); [exact IH | reflexivity].
Qed.

Lemma after_nl_app (a b : str) : a <> [] -> after_nl (a ++ b) = after_nl a ++ b.
Proof.
  destruct a as [|c a]; [congruence|]. intros _. simpl.
  destruct (c =? LF)%N; reflexivity.
Qed.

Lemma collapsed_prefix (a b : str) : collapsed (a ++ b) -> collapsed a.
Proof.
  induction a as [|c a IH]; [exact (fun _ => I)|].
  intros [Hhead Htail]. split; [|exact (IH Htail)].
  intros Hc. specialize (Hhead Hc).
  destruct a as [|d a]; [reflexivity|].
  rewrite after_nl_app in Hhead by discriminate.
  exact (nl_ahead_prefix _ _ Hhead).
Qed.

Lemma lstrip_suffix (s : str) : exists a, s = a ++ lstrip s.
Proof.
  induction s as [|c s [a Ha]]; [exists []; reflexivity|]. simpl.
  destruct (isspace c).
  - exists (c :: a). simpl. f_equal. exact Ha.
  - exists []. reflexivity.
Qed.

Lemma rstrip_prefix (s : str) : exists b, s = rstrip s ++ b.
Proof.
  unfold rstrip. destruct (lstrip_suffix (rev s)) as [a Ha].
  exists (rev a). rewrite <- rev_app_distr, <- Ha, rev_involutive. reflexivity.
Qed.

Lemma collapsed_strip (s : str) : collapsed s -> collapsed (strip s).
Proof.
  intros Hs. unfold strip.
  destruct (lstrip_suffix s) as [a Ha].
  destruct (rstrip_prefix (lstrip s)) as [b Hb].
  rewrite Ha in Hs. apply collapsed_suffix in Hs.
  rewrite Hb in Hs. apply collapsed_prefix in Hs. exact Hs.
Qed.

Lemma lstrip_starts_clean (s : str) : starts_clean (lstrip s).
Proof.
  induction s as [|c s IH]; [exact I|]. simpl.
  destruct (isspace c) eqn:Hc; [exact IH | exact Hc].
Qed.

Lemma lstrip_clean (s : str) : starts_clean s -> lstrip s = s.
Proof.
  destruct s as [|c s]; [reflexivity|]. simpl. intros ->. reflexivity.
Qed.

Lemma lstrip_snoc (u : str) (c : N) :
  isspace c = false -> lstrip (u ++ [c]) = lstrip u ++ [c].
Proof.
  intros Hc. induction u as [|d u IH]; simpl; [rewrite Hc; reflexivity|].
  destruct (isspace d); [exact IH | reflexivity].
Qed.

Lemma rstrip_starts_clean (s : str) : starts_clean s -> starts_clean (rstrip s).
Proof.
  destruct s as [|c s]; [exact (fun H => H)|]. simpl. intros Hc.
  unfold rstrip. simpl. rewrite (lstrip_snoc _ _ Hc), rev_app_distr. exact Hc.
Qed.

Lemma rstrip_idem (s : str) : rstrip (rstrip s) = rstrip s.
Proof.
  unfold rstrip. rewrite rev_involutive.
  rewrite (lstrip_clean _ (lstrip_starts_clean (rev s))). reflexivity.
Qed.

(** Trimming twice is trimming once. *)
Lemma strip_idem (s : str) : strip (strip s) = strip s.
Proof.
  unfold strip.
  rewrite (lstrip_clean (rstrip (lstrip s))).
  - apply rstrip_idem.
  - apply rstrip_starts_clean, lstrip_starts_clean.
Qed.

Lemma clean_whitespace_collapse (s : str) :
  clean_whitespace s = strip (collapse s).
Proof. reflexivity. Qed.

(** The last step of [clean_html_content] is idempotent. *)
Lemma clean_whitespace_idem (s : str) :
  clean_whitespace (clean_whitespace s) = clean_whitespace s.
Proof.
  rewrite !clean_whitespace_collapse.
  rewrite (collapsed_fixed (strip (collapse s))).
  - apply strip_idem.
  - apply collapsed_strip, collapse_collapsed.
Qed.

(** *** Tags *)

Section StarFacts.
Variable ic : bool.

(** A star that succeeds has consumed accepted characters and handed the
    rest to its continuation. *)
Lemma greedy_split (a : atom) (k : str -> option str) (s rest : str) :
  greedy_star ic a k s = Some rest ->
  exists m s2, s = m ++ s2 /\ Forall (fun c => accepts ic a c = true) m
               /\ k s2 = Some rest.
Proof.
  revert rest. induction s as [|c s IH]; intros rest; cbn [greedy_star].
  - intros Hk. exists [], []. auto.
  - destruct (accepts ic a c) eqn:Hc.
    + destruct (greedy_star ic a k s) as [r|] eqn:Hg.
      * intros Hr. injection Hr as <-.
        destruct (IH r eq_refl) as (m & s2 & -> & Hm & Hk).
        exists (c :: m), s2. auto.
      * intros Hk. exists [], (c :: s). auto.
    + intros Hk. exists [], (c :: s). auto.
Qed.

Lemma lazy_split (a : atom) (k : str -> option str) (s rest : str) :
  lazy_star ic a k s = Some rest ->
  exists m s2, s = m ++ s2 /\ Forall (fun c => accepts ic a c = true) m
               /\ k s2 = Some rest.
Proof.
  revert rest. induction s as [|c s IH]; intros rest; cbn [lazy_star].
  - destruct (k []) eqn:Hk; [|discriminate].
    intros Hr. injection Hr as <-. exists [], []. auto.
  - destruct (k (c :: s)) eqn:Hk.
    + intros Hr. injection Hr as <-. exists [], (c :: s). auto.
    + destruct (accepts ic a c) eqn:Hc; [|discriminate].
      intros Hr. destruct (IH rest Hr) as (m & s2 & -> & Hm & Hk2).
      exists (c :: m), s2. auto.
Qed.

End StarFacts.

(** Under [re.IGNORECASE], [<] and [>] match themselves only. *)
Lemma ci_match_LT (c : N) : ci_match LT c = true -> c = LT.
Proof.
  unfold ci_match, ascii_lower, LT. simpl.
  destruct ((65 <=? c)%N && (c <=? 90)%N) eqn:Hr.
  - apply andb_true_iff in Hr. destruct Hr as [H1 H2].
    apply N.leb_le in H1, H2. intros Hx. rewrite !orb_false_r in Hx.
    apply N.eqb_eq in Hx. lia.
  - intros Hx. rewrite !orb_false_r in Hx. apply N.eqb_eq in Hx. exact Hx.
Qed.

Lemma ci_match_GT (c : N) : ci_match GT c = true -> c = GT.
Proof.
  unfold ci_match, ascii_lower, GT. simpl.
  destruct ((65 <=? c)%N && (c <=? 90)%N) eqn:Hr.
  - apply andb_true_iff in Hr. destruct Hr as [H1 H2].
    apply N.leb_le in H1, H2. intros Hx. rewrite !orb_false_r in Hx.
    apply N.eqb_eq in Hx. lia.
  - intros Hx. rewrite !orb_false_r in Hx. apply N.eqb_eq in Hx. exact Hx.
Qed.

Lemma chr_match_LT (ic : bool) (c : N) : chr_match ic LT c = true -> c = LT.
Proof.
  destruct ic; simpl; [apply ci_match_LT | apply N.eqb_eq].
Qed.

Lemma chr_match_GT (ic : bool) (c : N) : chr_match ic GT c = true -> c = GT.
Proof.
  destruct ic; simpl; [apply ci_match_GT | apply N.eqb_eq].
Qed.

(** A pattern with a [>] piece only matches text with a [>] in it. *)
Lemma match_needs_gt (ic : bool) (r : regex) (s rest : str) :
  match_here ic r s = Some rest -> In (One (Chr GT)) r -> In GT s.
Proof.
  revert s rest. induction r as [|p r IH]; intros s rest Hm Hin; [destruct Hin|].
  destruct p as [a|a|a|a]; cbn [match_here] in Hm.
  - destruct s as [|c s]; [discriminate|].
    destruct (accepts ic a c) eqn:Hc; [|discriminate].
    destruct Hin as [Heq|Hin].
    + injection Heq as ->. simpl in Hc. left.
      exact (chr_match_GT _ _ Hc).
    + right. exact (IH _ _ Hm Hin).
  - destruct Hin as [Heq|Hin]; [discriminate|].
    destruct (greedy_split _ _ _ _ _ Hm) as (m & s2 & -> & _ & Hk).
    apply in_or_app. right. exact (IH _ _ Hk Hin).
  - destruct Hin as [Heq|Hin]; [discriminate|].
    destruct (lazy_split _ _ _ _ _ Hm) as (m & s2 & -> & _ & Hk).
    apply in_or_app. right. exact (IH _ _ Hk Hin).
  - destruct Hin as [Heq|Hin]; [discriminate|].
    destruct s as [|c s]; [discriminate|].
    destruct (accepts ic a c); [|discriminate].
    destruct (greedy_split _ _ _ _ _ Hm) as (m & s2 & -> & _ & Hk).
    right. apply in_or_app. right. exact (IH _ _ Hk Hin).
Qed.

Lemma tag_star (s : str) :
  In GT s -> greedy_star false (NotChr GT) gt_k s <> None.
Proof.
  induction s as [|c s IH]; [intros []|]. intros Hin. cbn [greedy_star accepts].
  unfold chr_match. destruct (c =? GT)%N eqn:Hc; simpl.
  - unfold gt_k. cbn [match_here accepts]. unfold chr_match.
    rewrite Hc. discriminate.
  - destruct Hin as [Heq|Hin]; [subst c; rewrite N.eqb_refl in Hc; discriminate|].
    specialize (IH Hin).
    destruct (greedy_star false (NotChr GT) gt_k s); [discriminate | congruence].
Qed.

(** When [tag_re] matches at the start of a text. *)
Lemma tag_match_intro (c : N) (s : str) :
  c <> GT -> In GT s -> match_here false tag_re (LT :: c :: s) <> None.
Proof.
  intros Hc Hin. unfold tag_re. cbn [match_here accepts]. unfold chr_match.
  rewrite N.eqb_refl. apply N.eqb_neq in Hc. rewrite Hc. simpl.
  exact (tag_star s Hin).
Qed.

Lemma tag_match_elim (b rest : str) :
  match_here false tag_re b = Some rest ->
  exists c s, b = LT :: c :: s /\ c <> GT /\ In GT s.
Proof.
  unfold tag_re. cbn [match_here accepts]. unfold chr_match.
  destruct b as [|x0 b]; [discriminate|].
  destruct (x0 =? LT)%N eqn:H0; [|discriminate]. apply N.eqb_eq in H0. subst x0.
  destruct b as [|c b]; [discriminate|].
  destruct (c =? GT)%N eqn:Hc; [discriminate|]. simpl. apply N.eqb_neq in Hc.
  intros Hm. destruct (greedy_split _ _ _ _ _ Hm) as (m & s2 & -> & _ & Hk).
  exists c, (m ++ s2). split; [reflexivity|]. split; [exact Hc|].
  apply in_or_app. right.
  destruct s2 as [|d s2]; [discriminate|]. cbn [match_here accepts] in Hk.
  unfold chr_match in Hk. destruct (d =? GT)%N eqn:Hd; [|discriminate].
  apply N.eqb_eq in Hd. left. exact Hd.
Qed.

(** Where a pattern that starts with [<], goes on with a character other
    than [>] and has a [>] piece matches, [tag_re] matches too. *)
Lemma implies_tag (ic : bool) (c2 : N) (r : regex) (s rest : str) :
  chr_match ic c2 GT = false ->
  In (One (Chr GT)) r ->
  match_here ic (One (Chr LT) :: One (Chr c2) :: r) s = Some rest ->
  match_here false tag_re s <> None.
Proof.
  intros Hc2 Hin. cbn [match_here accepts].
  destruct s as [|x0 s]; [discriminate|].
  destruct (chr_match ic LT x0) eqn:H0; [|discriminate].
  apply chr_match_LT in H0. subst x0.
  destruct s as [|x1 s]; [discriminate|].
  destruct (chr_match ic c2 x1) eqn:H1; [|discriminate].
  intros Hm. apply tag_match_intro.
  - intros ->. congruence.
  - exact (match_needs_gt _ _ _ _ Hm Hin).
Qed.

(** A pattern that matches nowhere substitutes nothing. *)
Lemma sub_no_match (ic : bool) (r : regex) (repl s : str) :
  (forall a b, s = a ++ b -> match_here ic r b = None) ->
  sub ic r repl s = s.
Proof.
  induction s as [|c s IH]; intros Hno; rewrite sub_unfold.
  - rewrite (Hno [] [] eq_refl). reflexivity.
  - rewrite (Hno [] (c :: s) eq_refl). f_equal. apply IH.
    intros a b ->. exact (Hno (c :: a) b eq_refl).
Qed.

Lemma tag_free_no_match (ic : bool) (c2 : N) (r : regex) (s : str) :
  chr_match ic c2 GT = false ->
  In (One (Chr GT)) r ->
  never_matches false tag_re s ->
  forall a b, s = a ++ b ->
              match_here ic (One (Chr LT) :: One (Chr c2) :: r) b = None.
Proof.
  intros Hc2 Hin Hfree a b Hs.
  destruct (match_here ic (One (Chr LT) :: One (Chr c2) :: r) b) as [rest|] eqn:Hm;
    [|reflexivity].
  destruct (implies_tag ic c2 r b rest Hc2 Hin Hm). exact (Hfree a b Hs).
Qed.

Ltac no_tag_step Hfree :=
  apply sub_no_match;
  refine (tag_free_no_match _ _ _ _ _ _ Hfree);
  [ reflexivity | vm_compute; tauto ].

(** On text without tags only the whitespace step acts. *)
Lemma clean_tag_free (s : str) :
  never_matches false tag_re s -> clean_html_content s = clean_whitespace s.
Proof.
  intros Hfree. unfold clean_html_content.
  assert (H1 : remove_scripts s = s) by (unfold remove_scripts; no_tag_step Hfree).
  assert (H2 : remove_styles s = s) by (unfold remove_styles; no_tag_step Hfree).
  assert (H3 : remove_comments s = s) by (unfold remove_comments; no_tag_step Hfree).
  assert (H4 : break_lines s = s).
  { unfold break_lines.
    assert (Ha : sub true br_re [LF] s = s) by no_tag_step Hfree.
    assert (Hb : sub true p_open_re [LF] s = s) by no_tag_step Hfree.
    assert (Hc : sub true p_close_re [LF] s = s) by no_tag_step Hfree.
    assert (Hd : sub true div_open_re [LF] s = s) by no_tag_step Hfree.
    assert (He : sub true div_close_re [LF] s = s) by no_tag_step Hfree.
    cbv zeta. rewrite Ha, Hb, Hc, Hd, He. reflexivity. }
  assert (H5 : remove_tags s = s).
  { unfold remove_tags. apply sub_no_match. exact Hfree. }
  cbv zeta. rewrite H1, H2, H3, H4, H5. reflexivity.
Qed.

Lemma thinned_refl (s : str) : thinned s s.
Proof. induction s; constructor; assumption. Qed.

Lemma thinned_drop_all (w x y : str) :
  Forall (fun c => isspace c = true) w -> thinned x y -> thinned (w ++ x) y.
Proof.
  induction 1 as [|c w Hc _ IH]; intros Hxy; [exact Hxy|].
  simpl. apply thin_drop; [exact Hc | exact (IH Hxy)].
Qed.

Lemma thinned_in (x y : str) (c : N) : thinned x y -> In c y -> In c x.
Proof.
  induction 1 as [|d x y _ IH|d x y _ _ IH]; intros Hin.
  - exact Hin.
  - destruct Hin as [->|Hin]; [left; reflexivity | right; exact (IH Hin)].
  - right. exact (IH Hin).
Qed.

Lemma thinned_tag_body (x s : str) (c : N) :
  thinned x (c :: s) -> c <> GT -> In GT s ->
  exists d x', x = d :: x' /\ d <> GT /\ In GT x'.
Proof.
  intros Hthin Hc Hin. inversion Hthin as [|d x0 y0 Hrest|d x0 y0 Hd Hrest]; subst.
  - exists c, x0. split; [reflexivity|]. split; [exact Hc|].
    exact (thinned_in _ _ _ Hrest Hin).
  - exists d, x0. split; [reflexivity|]. split.
    + intros ->. discriminate Hd.
    + apply (thinned_in _ _ _ Hrest). right. exact Hin.
Qed.

Lemma has_tag_cons (c : N) (s : str) : has_tag s -> has_tag (c :: s).
Proof.
  intros (a & d & s' & -> & Hd & Hin). exists (c :: a), d, s'. auto.
Qed.

(** Leaving whitespace out of a text makes no tag. *)
Lemma thinned_tag (x y : str) : thinned x y -> has_tag y -> has_tag x.
Proof.
  induction 1 as [|d x y Hthin IH|d x y _ _ IH]; intros (a & c & s' & Hy & Hc & Hin).
  - destruct a; discriminate.
  - destruct a as [|d' a]; simpl in Hy; injection Hy as -> ->.
    + destruct (thinned_tag_body _ _ _ Hthin Hc Hin) as (e & x' & -> & He & Hx').
      exists [], e, x'. auto.
    + apply has_tag_cons, IH. exists a, c, s'. auto.
  - apply has_tag_cons, IH. exists a, c, s'. auto.
Qed.

Lemma tag_free_iff (s : str) : never_matches false tag_re s <-> ~ has_tag s.
Proof.
  split.
  - intros Hfree (a & c & s' & Hs & Hc & Hin).
    exact (tag_match_intro c s' Hc Hin (Hfree _ _ Hs)).
  - intros Hno a b Hs.
    destruct (match_here false tag_re b) as [rest|] eqn:Hm; [|reflexivity].
    destruct (tag_match_elim _ _ Hm) as (c & s' & -> & Hc & Hin).
    destruct Hno. exists a, c, s'. auto.
Qed.

Lemma star_space_split (s rest : str) :
  greedy_star false Space nl_k s = Some rest ->
  exists w, s = w ++ LF :: rest /\ Forall (fun c => isspace c = true) w.
Proof.
  intros Hs. destruct (greedy_split _ _ _ _ _ Hs) as (m & s2 & -> & Hm & Hk).
  exists m. split; [|exact Hm].
  destruct s2 as [|d s2]; [discriminate|]. rewrite nl_k_cons in Hk.
  destruct (d =? LF)%N eqn:Hd; [|discriminate].
  apply N.eqb_eq in Hd. injection Hk as ->. subst d. reflexivity.
Qed.

(** [collapse] only leaves whitespace out. *)
Lemma collapse_thinned (s : str) : thinned s (collapse s).
Proof.
  remember (length s) as n eqn:Hn. revert s Hn.
  induction n as [n IH] using lt_wf_ind. intros s Hn.
  destruct s as [|c s]; [constructor|].
  destruct (N.eq_dec c LF) as [->|Hc].
  - destruct (greedy_star false Space nl_k s) as [rest|] eqn:Hs.
    + rewrite (collapse_nl_run _ _ Hs).
      destruct (star_some _ _ Hs) as (_ & Hlen & _).
      destruct (star_space_split _ _ Hs) as (w & -> & Hw).
      apply thin_keep, thinned_drop_all; [exact Hw|]. apply thin_keep.
      apply (IH (length rest)); [subst n; simpl; lia | reflexivity].
    + apply star_none in Hs. rewrite (collapse_nl_alone _ Hs). apply thin_keep.
      apply (IH (length s)); [subst n; simpl; lia | reflexivity].
  - rewrite (collapse_other _ _ Hc). apply thin_keep.
    apply (IH (length s)); [subst n; simpl; lia | reflexivity].
Qed.

Lemma has_tag_infix (a s b : str) : has_tag s -> has_tag (a ++ s ++ b).
Proof.
  intros (p & c & s' & -> & Hc & Hin).
  exists (a ++ p), c, (s' ++ b). split.
  - rewrite <- !app_assoc. reflexivity.
  - split; [exact Hc|]. apply in_or_app. left. exact Hin.
Qed.

(** The whitespace step keeps text free of tags. *)
Lemma clean_whitespace_tag_free (s : str) :
  never_matches false tag_re s -> never_matches false tag_re (clean_whitespace s).
Proof.
  rewrite !tag_free_iff. intros Hno Htag. apply Hno.
  apply (thinned_tag _ _ (collapse_thinned s)).
  rewrite clean_whitespace_collapse in Htag. unfold strip in Htag.
  destruct (lstrip_suffix (collapse s)) as [a Ha].
  destruct (rstrip_prefix (lstrip (collapse s))) as [b Hb].
  rewrite Ha, Hb. apply has_tag_infix. exact Htag.
Qed.

(** *** One pattern run on two inputs *)

Section TwoRuns.
Variable ic : bool.
Variables X Y post : str.

Local Abbreviation same_outcome := (same_outcome X Y post).
Local Abbreviation uniform := (uniform X Y post).

(** A pattern whose continuations all behave alike at the start of [X] and
    of [Y] behaves alike on [u ++ X] and [u ++ Y], for every [u]. *)
Lemma uniform_greedy (a : atom) (k : str -> option str) :
  uniform k ->
  same_outcome (greedy_star ic a k X) (greedy_star ic a k Y) ->
  uniform (greedy_star ic a k).
Proof.
  intros Hk Hb u. induction u as [|c u IH]; [exact Hb|].
  cbn [app greedy_star]. destruct (accepts ic a c); [|exact (Hk (c :: u))].
  inversion IH as [Hx Hy|p Hx Hy|Hx Hy].
  - exact (Hk (c :: u)).
  - constructor.
  - constructor.
Qed.

Lemma lazy_star_unfold (a : atom) (k : str -> option str) (c : N) (s : str) :
  lazy_star ic a k (c :: s)
  = match k (c :: s) with
    | Some r => Some r
    | None => if accepts ic a c then lazy_star ic a k s else None
    end.
Proof. reflexivity. Qed.

Lemma uniform_lazy (a : atom) (k : str -> option str) :
  uniform k ->
  same_outcome (lazy_star ic a k X) (lazy_star ic a k Y) ->
  uniform (lazy_star ic a k).
Proof.
  intros Hk Hb u. induction u as [|c u IH]; [exact Hb|].
  cbn [app]. rewrite !lazy_star_unfold.
  pose proof (Hk (c :: u)) as Hcu. cbn [app] in Hcu.
  inversion Hcu as [Hx Hy|p Hx Hy|Hx Hy].
  - destruct (accepts ic a c); [exact IH | constructor].
  - constructor.
  - constructor.
Qed.

Lemma uniform_match (r : regex) :
  (forall r', In r' (continuations r) ->
              same_outcome (match_here ic r' X) (match_here ic r' Y)) ->
  uniform (match_here ic r).
Proof.
  induction r as [|p r IH]; intros Hb.
  - intros u. apply so_inside.
  - assert (Hr : uniform (match_here ic r)).
    { apply IH. intros r' Hin. apply Hb. destruct p; simpl; auto. }
    assert (Hhere : same_outcome (match_here ic (p :: r) X)
                                 (match_here ic (p :: r) Y)).
    { apply Hb. destruct p; simpl; auto. }
    destruct p as [a|a|a|a].
    + intros [|c u]; [exact Hhere|]. cbn [app match_here].
      destruct (accepts ic a c); [apply Hr | constructor].
    + exact (uniform_greedy a _ Hr Hhere).
    + exact (uniform_lazy a _ Hr Hhere).
    + assert (Hstar : uniform (greedy_star ic a (match_here ic r))).
      { apply (uniform_greedy a _ Hr).
        apply (Hb (Star a :: r)). simpl. auto. }
      intros [|c u]; [exact Hhere|]. cbn [app match_here].
      destruct (accepts ic a c); [apply Hstar | constructor].
Qed.

(** If moreover the pattern matches all of [X] and all of [Y] up to [post],
    substitution gives the same text on [u ++ X] and [u ++ Y]. *)
Lemma uniform_sub (r : regex) (repl : str) :
  (forall r', In r' (continuations r) ->
              same_outcome (match_here ic r' X) (match_here ic r' Y)) ->
  match_here ic r X = Some post ->
  match_here ic r Y = Some post ->
  length post < length X ->
  length post < length Y ->
  forall u, sub ic r repl (u ++ X) = sub ic r repl (u ++ Y).
Proof.
  intros Hb HX HY HlX HlY u.
  pose proof (uniform_match r Hb) as Hu.
  remember (length u) as n eqn:Hn. revert u Hn.
  induction n as [n IH] using lt_wf_ind. intros u Hn.
  rewrite (sub_unfold ic r repl (u ++ X)), (sub_unfold ic r repl (u ++ Y)).
  destruct u as [|c u].
  - cbn [app]. rewrite HX, HY.
    apply Nat.ltb_lt in HlX, HlY. rewrite HlX, HlY. reflexivity.
  - assert (Htail : sub ic r repl (u ++ X) = sub ic r repl (u ++ Y)).
    { apply (IH (length u)); [subst n; simpl; lia | reflexivity]. }
    pose proof (Hu (c :: u)) as Hcu.
    cbn [app] in Hcu |- *.
    inversion Hcu as [Hx Hy|p Hx Hy|Hx Hy]; clear Hcu.
    + rewrite Htail. reflexivity.
    + destruct (Nat.ltb_spec (length p) (length (c :: u))) as [Hlt|Hge].
      * replace (length (p ++ X) <? length (c :: u ++ X)) with true
          by (symmetry; apply Nat.ltb_lt; simpl in *; rewrite !length_app; lia).
        replace (length (p ++ Y) <? length (c :: u ++ Y)) with true
          by (symmetry; apply Nat.ltb_lt; simpl in *; rewrite !length_app; lia).
        f_equal. apply (IH (length p)); [subst n; lia | reflexivity].
      * replace (length (p ++ X) <? length (c :: u ++ X)) with false
          by (symmetry; apply Nat.ltb_ge; simpl in *; rewrite !length_app; lia).
        replace (length (p ++ Y) <? length (c :: u ++ Y)) with false
          by (symmetry; apply Nat.ltb_ge; simpl in *; rewrite !length_app; lia).
        rewrite Htail. reflexivity.
    + replace (length post <? length (c :: u ++ X)) with true
        by (symmetry; apply Nat.ltb_lt; simpl; rewrite length_app; lia).
      replace (length post <? length (c :: u ++ Y)) with true
        by (symmetry; apply Nat.ltb_lt; simpl; rewrite length_app; lia).
      reflexivity.
Qed.

End TwoRuns.

(** *** Script blocks *)

Lemma lazy_now (ic : bool) (a : atom) (k : str -> option str) (s r : str) :
  k s = Some r -> lazy_star ic a k s = Some r.
Proof. intros Hk. destruct s; simpl; rewrite Hk; reflexivity. Qed.

Lemma lazy_step (ic : bool) (a : atom) (k : str -> option str) (c : N) (s : str) :
  k (c :: s) = None -> accepts ic a c = true ->
  lazy_star ic a k (c :: s) = lazy_star ic a k s.
Proof. intros Hk Ha. rewrite lazy_star_unfold, Hk, Ha. reflexivity. Qed.

Lemma chr_match_LT_false (x : N) : x <> LT -> chr_match true LT x = false.
Proof.
  intros Hx. destruct (chr_match true LT x) eqn:Hm; [|reflexivity].
  apply chr_match_LT in Hm. contradiction.
Qed.

Lemma chr_match_GT_false (x : N) : x <> GT -> chr_match true GT x = false.
Proof.
  intros Hx. destruct (chr_match true GT x) eqn:Hm; [|reflexivity].
  apply chr_match_GT in Hm. contradiction.
Qed.

Lemma k2_head (x : N) (s : str) : x <> LT -> k2 (x :: s) = None.
Proof.
  intros Hx. unfold k2, close_re. cbn [chars lit]. 
  change (match_here true (One (Chr LT) :: tl (chars "</script>")) (x :: s) = None).
  cbn [match_here accepts]. rewrite (chr_match_LT_false x Hx). reflexivity.
Qed.

Lemma k1_head (x : N) (s : str) : x <> GT -> k1 (x :: s) = None.
Proof.
  intros Hx. unfold k1. cbn [match_here accepts].
  rewrite (chr_match_GT_false x Hx). reflexivity.
Qed.

Lemma lazy_skip_k2 (w T : str) :
  Forall (fun x => x <> LT) w ->
  lazy_star true Dot k2 (w ++ T) = lazy_star true Dot k2 T.
Proof.
  induction 1 as [|x w Hx _ IH]; [reflexivity|]. cbn [app].
  rewrite lazy_step; [exact IH | exact (k2_head x _ Hx) | reflexivity].
Qed.

Lemma lazy_skip_k1 (w T : str) :
  Forall (fun x => x <> GT) w ->
  lazy_star true Dot k1 (w ++ T) = lazy_star true Dot k1 T.
Proof.
  induction 1 as [|x w Hx _ IH]; [reflexivity|]. cbn [app].
  rewrite lazy_step; [exact IH | exact (k1_head x _ Hx) | reflexivity].
Qed.

(** A literal none of whose characters matches [<] cannot match across the
    start of a tag. *)
Lemma lit_inside (ic : bool) (q : regex) (b T rest : str) :
  Forall (fun p => exists c, p = One (Chr c) /\ chr_match ic c LT = false) q ->
  match_here ic q (b ++ LT :: T) = Some rest ->
  exists b', match_here ic q b = Some b'.
Proof.
  intros Hq. revert b. induction Hq as [|p q [c [-> Hc]] _ IH]; intros b.
  - intros _. exists b. reflexivity.
  - destruct b as [|x b]; cbn [app match_here accepts].
    + rewrite Hc. discriminate.
    + destruct (chr_match ic c x); [apply IH | discriminate].
Qed.

Lemma close_re_cons : close_re = One (Chr LT) :: tl close_re.
Proof. reflexivity. Qed.

Lemma close_tail_no_lt :
  Forall (fun p => exists c, p = One (Chr c) /\ chr_match true c LT = false)
         (tl close_re).
Proof. repeat constructor; eexists; split; reflexivity. Qed.

Lemma close_free_tail (c : N) (b : str) :
  never_matches true close_re (c :: b) -> never_matches true close_re b.
Proof. intros H a b' ->. exact (H (c :: a) b' eq_refl). Qed.

(** Inside a body without a closing tag the search for one moves on. *)
Lemma lazy_skip_body (body T : str) :
  never_matches true close_re body ->
  lazy_star true Dot k2 (body ++ LT :: T) = lazy_star true Dot k2 (LT :: T).
Proof.
  induction body as [|c body IH]; intros Hfree; [reflexivity|]. cbn [app].
  rewrite lazy_step; [exact (IH (close_free_tail _ _ Hfree)) | | reflexivity].
  destruct (k2 (c :: body ++ LT :: T)) as [rest|] eqn:Hk; [|reflexivity].
  exfalso. unfold k2 in Hk. rewrite close_re_cons in Hk.
  cbn [match_here accepts] in Hk.
  destruct (chr_match true LT c) eqn:Hc; [|discriminate].
  destruct (lit_inside true _ _ _ _ close_tail_no_lt Hk) as [b' Hb'].
  pose proof (Hfree [] (c :: body) eq_refl) as Hno.
  rewrite close_re_cons in Hno. cbn [match_here accepts] in Hno.
  rewrite Hc in Hno. congruence.
Qed.

Lemma close_self (post : str) : k2 (lit "</script>" ++ post) = Some post.
Proof. reflexivity. Qed.

Lemma lit_close_cons (post : str) :
  lit "</script>" ++ post = LT :: (tl (lit "</script>") ++ post).
Proof. reflexivity. Qed.

Lemma lazy_body_close (body post : str) :
  never_matches true close_re body ->
  lazy_star true Dot k2 (body ++ lit "</script>" ++ post) = Some post.
Proof.
  intros Hfree. rewrite lit_close_cons, (lazy_skip_body _ _ Hfree).
  rewrite <- lit_close_cons. apply lazy_now, close_self.
Qed.

Lemma block_app (attrs body post : str) :
  script_block attrs body ++ post
  = lit "<script" ++ attrs ++ GT :: body ++ lit "</script>" ++ post.
Proof. unfold script_block. rewrite <- !app_assoc. reflexivity. Qed.

Lemma block_head (attrs body post : str) :
  script_block attrs body ++ post
  = LT :: 115%N :: tl (tl (lit "<script")) ++ attrs ++ GT :: body
      ++ lit "</script>" ++ post.
Proof. rewrite block_app. reflexivity. Qed.

Lemma open_no_gt : Forall (fun x => x <> GT) (lit "<script").
Proof. repeat constructor; discriminate. Qed.

Lemma open_tail_no_lt : Forall (fun x => x <> LT) (tl (lit "<script")).
Proof. repeat constructor; discriminate. Qed.

Lemma k1_gt (s : str) : k1 (GT :: s) = lazy_star true Dot k2 s.
Proof. reflexivity. Qed.

Lemma lazy_k1_block (attrs body post : str) :
  Forall (fun x => x <> GT) attrs -> never_matches true close_re body ->
  lazy_star true Dot k1 (attrs ++ GT :: body ++ lit "</script>" ++ post)
  = Some post.
Proof.
  intros Hattrs Hbody. rewrite (lazy_skip_k1 _ _ Hattrs).
  apply lazy_now. rewrite k1_gt. exact (lazy_body_close _ _ Hbody).
Qed.

Lemma script_match_block (attrs body post : str) :
  Forall (fun x => x <> GT) attrs -> never_matches true close_re body ->
  match_here true script_re (script_block attrs body ++ post) = Some post.
Proof.
  intros Hattrs Hbody. rewrite block_app.
  change (lazy_star true Dot k1
            (attrs ++ GT :: body ++ lit "</script>" ++ post) = Some post).
  exact (lazy_k1_block _ _ _ Hattrs Hbody).
Qed.

Lemma lazy_k1_from_block (attrs body post : str) :
  Forall (fun x => x <> GT) attrs -> never_matches true close_re body ->
  lazy_star true Dot k1 (script_block attrs body ++ post) = Some post.
Proof.
  intros Hattrs Hbody. rewrite block_app, (lazy_skip_k1 _ _ open_no_gt).
  exact (lazy_k1_block _ _ _ Hattrs Hbody).
Qed.

Lemma lazy_k2_from_block (attrs body post : str) :
  Forall (fun x => x <> LT) attrs -> never_matches true close_re body ->
  lazy_star true Dot k2 (script_block attrs body ++ post) = Some post.
Proof.
  intros Hattrs Hbody. rewrite block_head.
  rewrite lazy_step; [|reflexivity|reflexivity].
  change (115%N :: tl (tl (lit "<script")) ++ attrs ++ GT :: body
            ++ lit "</script>" ++ post)
    with (tl (lit "<script") ++ attrs ++ [GT] ++ body ++ lit "</script>" ++ post).
  rewrite (lazy_skip_k2 _ _ open_tail_no_lt), (lazy_skip_k2 _ _ Hattrs).
  rewrite (lazy_skip_k2 [GT]) by (repeat constructor; discriminate).
  exact (lazy_body_close _ _ Hbody).
Qed.

(** How every continuation of [script_re] fares at the start of a block:
    the same whatever the body. *)
Lemma script_boundary (attrs body post : str) :
  Forall (fun x => x <> LT) attrs ->
  Forall (fun x => x <> GT) attrs ->
  never_matches true close_re body ->
  Forall2 (fun r' (e : bool) =>
             match_here true r' (script_block attrs body ++ post)
             = if e then Some post else None)
          (continuations script_re) script_expected.
Proof.
  intros Hlt Hgt Hbody.
  pose proof (script_match_block attrs body post Hgt Hbody) as H3.
  pose proof (lazy_k1_from_block attrs body post Hgt Hbody) as H4.
  pose proof (lazy_k2_from_block attrs body post Hlt Hbody) as H2.
  unfold script_expected.
  let c := eval vm_compute in (continuations script_re) in
  change (continuations script_re) with c.
  repeat (apply List.Forall2_cons;
          [first [ exact H3 | exact H4 | exact H2
                 | rewrite block_head; reflexivity ]|]).
  apply List.Forall2_nil.
Qed.

Lemma boundary_same (X Y post : str) (l : list regex) (e : list bool) :
  Forall2 (fun r' (b : bool) =>
             match_here true r' X = if b then Some post else None) l e ->
  Forall2 (fun r' (b : bool) =>
             match_here true r' Y = if b then Some post else None) l e ->
  forall r', In r' l ->
             same_outcome X Y post (match_here true r' X) (match_here true r' Y).
Proof.
  intros HX. induction HX as [|r0 b l e Hx _ IH]; intros HY r' Hin;
    [destruct Hin|].
  inversion HY as [|? ? ? ? Hy HY']; subst.
  destruct Hin as [<-|Hin]; [|exact (IH HY' r' Hin)].
  rewrite Hx, Hy. destruct b; constructor.
Qed.

Lemma block_longer (attrs body post : str) :
  length post < length (script_block attrs body ++ post).
Proof.
  rewrite length_app.
  assert (0 < length (script_block attrs body)).
  { unfold script_block. rewrite length_app.
    change (length (lit "<script")) with 7. lia. }
  lia.
Qed.

(** The first step of [clean_html_content] gives the same text whatever the
    body of the block. *)
Lemma remove_scripts_body (pre attrs body body' post : str) :
  Forall (fun x => x <> LT) attrs ->
  Forall (fun x => x <> GT) attrs ->
  never_matches true close_re body ->
  never_matches true close_re body' ->
  remove_scripts (pre ++ script_block attrs body ++ post)
  = remove_scripts (pre ++ script_block attrs body' ++ post).
Proof.
  intros Hlt Hgt Hb Hb'. unfold remove_scripts.
  apply (uniform_sub true _ _ post).
  - apply (boundary_same _ _ _ _ _ (script_boundary attrs body post Hlt Hgt Hb)
             (script_boundary attrs body' post Hlt Hgt Hb')).
  - exact (script_match_block _ _ _ Hgt Hb).
  - exact (script_match_block _ _ _ Hgt Hb').
  - apply block_longer.
  - apply block_longer.
Qed.


(** [matches_nowhere] decides [never_matches]. *)
Lemma matches_nowhere_spec (ic : bool) (r : regex) (s : str) :
  matches_nowhere ic r s = true <-> never_matches ic r s.
Proof.
  unfold never_matches. induction s as [|c s IH]; cbn [matches_nowhere].
  - destruct (match_here ic r []) eqn:Hm; split.
    + discriminate.
    + intros Hno. rewrite (Hno [] [] eq_refl) in Hm. discriminate.
    + intros _ a b Hab. destruct a, b; try discriminate. exact Hm.
    + reflexivity.
  - destruct (match_here ic r (c :: s)) eqn:Hm; split.
    + discriminate.
    + intros Hno. rewrite (Hno [] (c :: s) eq_refl) in Hm. discriminate.
    + intros Hs a b Hab. destruct a as [|d a].
      * simpl in Hab. subst b. exact Hm.
      * injection Hab as _ ->. apply (proj1 IH Hs a b eq_refl).
    + intros Hno. apply IH. intros a b ->. exact (Hno (c :: a) b eq_refl).
Qed.

(** C7: the normalizer is idempotent on text without tags: for every string
    in which the tag pattern of [clean_html_content] matches nowhere,
    cleaning the cleaned text gives the cleaned text. *)
Theorem clean_html_content_idempotent (x : str) :
  tag_free x ->
  clean_html_content (clean_html_content x) = clean_html_content x.
Proof.
  intros Hfree. apply matches_nowhere_spec in Hfree.
  rewrite (clean_tag_free x Hfree).
  rewrite (clean_tag_free _ (clean_whitespace_tag_free x Hfree)).
  apply clean_whitespace_idem.
Qed.

Lemma clean_html_content_idempotent_witness :
  clean_html_content (clean_html_content plain_text)
  = clean_html_content plain_text
  /\ clean_html_content plain_text = lit "1 < 2

 next line".
Proof.
  split.
  - apply clean_html_content_idempotent. vm_compute. reflexivity.
  - vm_compute. reflexivity.
Defined.

Lemma without_char (x : N) (l : str) :
  forallb (fun c => negb (c =? x)%N) l = true -> Forall (fun c => c <> x) l.
Proof.
  induction l as [|c l IH]; [constructor|]. cbn [forallb].
  intros Hl. apply andb_true_iff in Hl. destruct Hl as [Hc Hl].
  constructor; [|exact (IH Hl)].
  apply negb_true_iff, N.eqb_neq in Hc. exact Hc.
Qed.



